(** * wtast: the wikitext syntax-tree schema of [dev/lib/wtast.ts]

    The source file consists of TypeScript declarations only: the
    content-category maps, the content unions taken from them, and one
    interface per node kind.  The development keeps them as data (one
    property list per interface, written in the order of the source) and
    gives them their meaning by a structural conformance test of a
    JavaScript value against a type. *)

From Stdlib Require Import List String Ascii Bool ZArith QArith Lia.
Import ListNotations.
Set Warnings "-register-all".
Local Open Scope string_scope.
Local Open Scope list_scope.

(** ** Values *)

(** JavaScript values as a tree validator meets them.  Numbers are kept as
    rationals, which is enough to tell the literals [1] .. [6] from any
    other number; objects are association lists read by first match. *)
Inductive value : Type :=
| VUndefined
| VNull
| VBool (b : bool)
| VNum (q : Q)
| VStr (s : string)
| VArr (items : list value)
| VObj (fields : list (string * value)).

Fixpoint get (k : string) (fs : list (string * value)) : option value :=
  match fs with
  | [] => None
  | (k', x) :: r => if String.eqb k' k then Some x else get k r
  end.

Definition field (k : string) (v : value) : option value :=
  match v with
  | VObj fs => get k fs
  | _ => None
  end.

Definition tag (v : value) : option string :=
  match field "type" v with
  | Some (VStr s) => Some s
  | _ => None
  end.

Definition children (v : value) : list value :=
  match field "children" v with
  | Some (VArr l) => l
  | _ => []
  end.

Definition is_undefined (v : value) : bool :=
  match v with
  | VUndefined => true
  | _ => false
  end.

(** ** Types *)

(** Every interface name of the source, and the three interfaces the
    source imports from the [unist] package. *)
Inductive iface : Set :=
| Node | UnistParent | UnistLiteral
| Parent | Literal | Root
| Heading | ThematicBreak | ListItem | Table | TableRow | TableCell | HTML
| Definition_ | FootnoteDefinition | Text | Emphasis | Strong | Delete
| Break | Link | LinkReference | Footnote | FootnoteReference
| Resource | Association | Reference | Alternative
| Paragraph | List_ | Image | File | Signature | Redirect | TOC
| Nowiki | References | Gallery | Math | SyntaxHighlighting.

Scheme Equality for iface.

(** The placeholders of a template literal type. *)
Inductive hole : Set := HString | HNumber.

Record prop_of (T : Type) : Type := Prop_
  { pname : string;
    optional : bool;
    ptype : T }.
Arguments Prop_ {T} _ _ _.
Arguments pname {T} _.
Arguments optional {T} _.
Arguments ptype {T} _.

(** The fragment of TypeScript's type language that the source uses.
    [TTemplate head inner h tail] is the template literal type
    [head ${..} d1 ${..} d2 ... ${h} tail]. *)
Inductive ty : Type :=
| TUnknown
| TString
| TNumber
| TBoolean
| TNull
| TUndefined
| TStrLit (s : string)
| TNumLit (z : Z)
| TTemplate (head : string) (inner : list (hole * string)) (h : hole)
    (tail : string)
| TUnion (alts : list ty)
| TArray (elem : ty)
| TRef (i : iface)
| TObject (ps : list (prop_of ty)).

Definition prop : Type := prop_of ty.

(** [k: t] and [k?: t]. *)
Definition req (k : string) (t : ty) : prop := Prop_ k false t.
Definition opt (k : string) (t : ty) : prop := Prop_ k true t.

(** ** Template literal types *)

(** White space, among the code units below 256 that strings hold here:
    tab, line feed, vertical tab, form feed, carriage return, space and
    no-break space. *)
Definition is_space (c : ascii) : bool :=
  let n := nat_of_ascii c in
  ((9 <=? n)%nat && (n <=? 13)%nat) || (n =? 32)%nat || (n =? 160)%nat.

Fixpoint drop_spaces (l : list ascii) : list ascii :=
  match l with
  | c :: r => if is_space c then drop_spaces r else l
  | [] => []
  end.

Definition trim (l : list ascii) : list ascii :=
  rev (drop_spaces (rev (drop_spaces l))).

(** The value of [c] as a digit of the base, if it is one. *)
Definition digit_value (base : Z) (c : ascii) : option Z :=
  let n := Z.of_nat (nat_of_ascii c) in
  let v :=
    if ((48 <=? n) && (n <=? 57))%Z then Some (n - 48)%Z
    else if ((97 <=? n) && (n <=? 102))%Z then Some (n - 87)%Z
    else if ((65 <=? n) && (n <=? 70))%Z then Some (n - 55)%Z
    else None in
  match v with
  | Some d => if (d <? base)%Z then Some d else None
  | None => None
  end.

(** The longest run of digits at the head of [l]: its value after the
    digits already read, its length, and what follows it. *)
Fixpoint digits (base acc : Z) (l : list ascii) : Z * nat * list ascii :=
  match l with
  | c :: r =>
      match digit_value base c with
      | Some d =>
          let '(v, n, r') := digits base (acc * base + d)%Z r in (v, S n, r')
      | None => (acc, O, l)
      end
  | [] => (acc, O, [])
  end.

Definition strip_sign (l : list ascii) : list ascii :=
  match l with
  | c :: r =>
      if (Ascii.eqb c "+" || Ascii.eqb c "-")%bool then r else l
  | [] => []
  end.

Definition is_nil (l : list ascii) : bool :=
  match l with
  | [] => true
  | _ => false
  end.

(** Numbers from this bound on round to an infinity: it lies half way
    between the largest double and [2 ^ 1024]. *)
Definition overflow_bound : Z := (2 ^ 1024 - 2 ^ 970)%Z.

(** [m * 10 ^ e], for [m] not negative, rounds to a finite double. *)
Definition finite_scaled (m e : Z) : bool :=
  if (m =? 0)%Z then true
  else if (0 <=? e)%Z then (m * 10 ^ e <? overflow_bound)%Z
  else (m <? overflow_bound * 10 ^ (- e))%Z.

(** An exponent part that ends the string, or nothing. *)
Definition exponent (l : list ascii) : option Z :=
  match l with
  | [] => Some 0%Z
  | c :: r =>
      if (Ascii.eqb c "e" || Ascii.eqb c "E")%bool
      then
        let negative :=
          match r with
          | s :: _ => Ascii.eqb s "-"
          | [] => false
          end in
        let '(v, n, r') := digits 10 0 (strip_sign r) in
        if ((0 <? n)%nat && is_nil r')%bool
        then Some (if negative then (- v)%Z else v)
        else None
      else None
  end.

Definition decimal_finite (l : list ascii) : bool :=
  let '(m1, n1, r) := digits 10 0 (strip_sign l) in
  match r with
  | c :: r1 =>
      if Ascii.eqb c "."
      then
        let '(m, n2, r2) := digits 10 m1 r1 in
        (0 <? n1 + n2)%nat
        && match exponent r2 with
           | Some e => finite_scaled m (e - Z.of_nat n2)
           | None => false
           end
      else
        (0 <? n1)%nat
        && match exponent r with
           | Some e => finite_scaled m1 e
           | None => false
           end
  | [] => (0 <? n1)%nat && finite_scaled m1 0
  end.

Definition radix_of (c : ascii) : option Z :=
  if (Ascii.eqb c "x" || Ascii.eqb c "X")%bool then Some 16%Z
  else if (Ascii.eqb c "o" || Ascii.eqb c "O")%bool then Some 8%Z
  else if (Ascii.eqb c "b" || Ascii.eqb c "B")%bool then Some 2%Z
  else None.

(** [0x..], [0o..] and [0b..]: [None] when [l] has no such prefix. *)
Definition radix_finite (l : list ascii) : option bool :=
  match l with
  | z :: p :: r =>
      if Ascii.eqb z "0"
      then
        match radix_of p with
        | Some base =>
            let '(v, n, r') := digits base 0 r in
            Some ((0 <? n)%nat && is_nil r' && (v <? overflow_bound)%Z)
        | None => None
        end
      else None
  | _ => None
  end.

(** A [${number}] placeholder takes the strings that are not empty and
    that JavaScript's conversion of a string to a number turns into a finite
    number: optional white space around nothing at all (the number 0), a
    binary, octal or hexadecimal integer, or a signed decimal literal, with
    an optional fraction and exponent, whose value does not round to an
    infinity. *)
Definition number_string (s : string) : bool :=
  negb (String.eqb s "")
  && match trim (list_ascii_of_string s) with
     | [] => true
     | l =>
         match radix_finite l with
         | Some b => b
         | None => decimal_finite l
         end
     end.

Definition hole_ok (h : hole) (s : string) : bool :=
  match h with
  | HString => true
  | HNumber => number_string s
  end.

Definition drop (n : nat) (s : string) : string :=
  substring n (String.length s - n) s.

Definition ends_with (suffix s : string) : bool :=
  (String.length suffix <=? String.length s)%nat
  && String.eqb (drop (String.length s - String.length suffix) s) suffix.

(** The text between two placeholders is looked for at its first
    occurrence, as the compiler does.  The delimiters of this schema are
    never empty. *)
Fixpoint match_inner (inner : list (hole * string)) (h : hole) (r : string)
  : bool :=
  match inner with
  | [] => hole_ok h r
  | (h1, delim) :: more =>
      match index 0 delim r with
      | Some p =>
          hole_ok h1 (substring 0 p r)
          && match_inner more h (drop (p + String.length delim) r)
      | None => false
      end
  end.

Definition template_match (head : string) (inner : list (hole * string))
  (h : hole) (tail s : string) : bool :=
  (String.length head + String.length tail <=? String.length s)%nat
  && prefix head s
  && ends_with tail s
  && match_inner inner h
       (substring (String.length head)
          (String.length s - String.length head - String.length tail) s).

(** ** Interface declarations *)

Definition declares (ps : list prop) (k : string) : bool :=
  existsb (fun p => String.eqb (pname p) k) ps.

(** [Omit<I, k>]. *)
Definition omit (k : string) (ps : list prop) : list prop :=
  filter (fun p => negb (String.eqb (pname p) k)) ps.

(** [interface I extends B1, B2 { own }]: the properties of the bases,
    except those that the body declares again. *)
Definition extends (bases : list (list prop)) (own : list prop) : list prop :=
  own ++ filter (fun p => negb (declares own (pname p))) (List.concat bases).

(** [M[keyof M]]: the union of the property types of a map. *)
Definition members (m : list prop) : ty := TUnion (map ptype m).

(** [T | null | undefined]. *)
Definition nullable (t : ty) : ty := TUnion [t; TNull; TUndefined].

Definition lits (l : list string) : list ty := map TStrLit l.

Definition ReferenceType : ty := TUnion (lits ["shortcut"; "collapsed"; "full"]).

(** *** Content-category maps *)

Definition BlockContentMap : list prop :=
  [ req "paragraph" (TRef Paragraph);
    req "heading" (TRef Heading);
    req "thematicbreak" (TRef ThematicBreak);
    req "list" (TRef List_);
    req "table" (TRef Table);
    req "html" (TRef HTML);
    req "signature" (TRef Signature);
    req "redirect" (TRef Redirect);
    req "toc" (TRef TOC);
    req "nowiki" (TRef Nowiki);
    req "references" (TRef References);
    req "gallery" (TRef Gallery);
    req "math" (TRef Math);
    req "syntaxHighlighting" (TRef SyntaxHighlighting) ].

Definition DefinitionContentMap : list prop :=
  [ req "definition" (TRef Definition_);
    req "footnoteDefinition" (TRef FootnoteDefinition) ].

Definition StaticPhrasingContentMap : list prop :=
  [ req "text" (TRef Text);
    req "emphasis" (TRef Emphasis);
    req "strong" (TRef Strong);
    req "html" (TRef HTML);
    req "break" (TRef Break);
    req "footnote" (TRef Footnote);
    req "footnotereference" (TRef FootnoteReference);
    req "nowiki" (TRef Nowiki);
    req "references" (TRef References);
    req "gallery" (TRef Gallery);
    req "math" (TRef Math);
    req "syntaxhighlighting" (TRef SyntaxHighlighting) ].

Definition PhrasingContentMap : list prop :=
  extends [StaticPhrasingContentMap]
    [ req "link" (TRef Link);
      req "linkReference" (TRef LinkReference) ].

Definition ListContentMap : list prop := [ req "listItem" (TRef ListItem) ].

Definition TableContentMap : list prop := [ req "tableRow" (TRef TableRow) ].

Definition RowContentMap : list prop := [ req "tableCell" (TRef TableCell) ].

(** *** Content unions *)

Definition BlockContent : ty := members BlockContentMap.
Definition DefinitionContent : ty := members DefinitionContentMap.
Definition ListContent : ty := members ListContentMap.
Definition TableContent : ty := members TableContentMap.
Definition RowContent : ty := members RowContentMap.
Definition PhrasingContent : ty := members PhrasingContentMap.
Definition StaticPhrasingContent : ty := members StaticPhrasingContentMap.
Definition TopLevelContent : ty := TUnion [BlockContent; DefinitionContent].
Definition Content : ty :=
  TUnion [TopLevelContent; ListContent; TableContent; RowContent;
          PhrasingContent].

(** *** The interfaces of [unist] *)

(** Modelled from the spec: the three base interfaces that the source
    imports from the [unist] package, which is not part of the repository.
    A node carries its tag as a string, a parent an ordered sequence of
    child nodes, a literal a value.  The optional position and data
    records of the package are not constrained here. *)
Definition Node_decl : list prop := [ req "type" TString ].

Definition UnistParent_decl : list prop :=
  extends [Node_decl] [ req "children" (TArray (TRef Node)) ].

Definition UnistLiteral_decl : list prop :=
  extends [Node_decl] [ req "value" TUnknown ].

(** *** Mixins *)

Definition Resource_decl : list prop :=
  [ req "url" TString;
    opt "title" (nullable TString) ].

Definition Association_decl : list prop :=
  [ req "identifier" TString;
    opt "label" (nullable TString) ].

Definition Reference_decl : list prop :=
  extends [Association_decl] [ req "referenceType" ReferenceType ].

Definition Alternative_decl : list prop := [ opt "alt" (nullable TString) ].

(** *** Nodes shared with markdown *)

Definition Parent_decl : list prop :=
  extends [UnistParent_decl] [ req "children" (TArray Content) ].

Definition Literal_decl : list prop :=
  extends [UnistLiteral_decl] [ req "value" TString ].

Definition Root_decl : list prop :=
  extends [Parent_decl] [ req "type" (TStrLit "root") ].

Definition Heading_decl : list prop :=
  extends [Parent_decl]
    [ req "type" (TStrLit "heading");
      req "depth" (TUnion (map TNumLit [1; 2; 3; 4; 5; 6]%Z));
      req "children" (TArray PhrasingContent) ].

Definition ThematicBreak_decl : list prop :=
  extends [Node_decl] [ req "type" (TStrLit "thematicBreak") ].

Definition ListItem_decl : list prop :=
  extends [Parent_decl]
    [ req "type" (TStrLit "listItem");
      opt "checked" (nullable TBoolean);
      opt "spread" (nullable TBoolean);
      req "children" (TArray (TUnion [BlockContent; DefinitionContent])) ].

Definition Table_decl : list prop :=
  extends [Parent_decl]
    [ req "type" (TStrLit "table");
      req "children" (TArray TableContent) ].

Definition TableRow_decl : list prop :=
  extends [Parent_decl]
    [ req "type" (TStrLit "tableRow");
      req "children" (TArray RowContent) ].

Definition TableCell_decl : list prop :=
  extends [Parent_decl]
    [ req "type" (TStrLit "tableCell");
      req "children" (TArray PhrasingContent) ].

Definition HTML_decl : list prop :=
  extends [Literal_decl] [ req "type" (TStrLit "html") ].

Definition Definition_decl : list prop :=
  extends [Node_decl; Association_decl; Resource_decl]
    [ req "type" (TStrLit "definition") ].

Definition FootnoteDefinition_decl : list prop :=
  extends [Parent_decl; Association_decl]
    [ req "type" (TStrLit "footnoteDefinition");
      req "children" (TArray (TUnion [BlockContent; DefinitionContent])) ].

Definition Text_decl : list prop :=
  extends [Literal_decl] [ req "type" (TStrLit "text") ].

Definition Emphasis_decl : list prop :=
  extends [Parent_decl]
    [ req "type" (TStrLit "emphasis");
      req "children" (TArray PhrasingContent) ].

Definition Strong_decl : list prop :=
  extends [Parent_decl]
    [ req "type" (TStrLit "strong");
      req "children" (TArray PhrasingContent) ].

Definition Delete_decl : list prop :=
  extends [Parent_decl]
    [ req "type" (TStrLit "delete");
      req "children" (TArray PhrasingContent) ].

Definition Break_decl : list prop :=
  extends [Node_decl] [ req "type" (TStrLit "break") ].

Definition Link_decl : list prop :=
  extends [Parent_decl; Resource_decl]
    [ req "type" (TStrLit "link");
      req "children" (TArray StaticPhrasingContent) ].

Definition LinkReference_decl : list prop :=
  extends [Parent_decl; Reference_decl]
    [ req "type" (TStrLit "linkReference");
      req "children" (TArray StaticPhrasingContent) ].

Definition Footnote_decl : list prop :=
  extends [Parent_decl]
    [ req "type" (TStrLit "footnote");
      req "children" (TArray PhrasingContent) ].

Definition FootnoteReference_decl : list prop :=
  extends [Node_decl; Association_decl]
    [ req "type" (TStrLit "footnoteReference") ].

(** *** Extended nodes *)

Definition Paragraph_decl : list prop :=
  extends [Parent_decl]
    [ req "type" (TStrLit "paragraph");
      req "children" (TArray PhrasingContent);
      opt "indent" (nullable TNumber) ].

Definition List_decl : list prop :=
  extends [Parent_decl]
    [ req "type" (TStrLit "list");
      opt "ordered" (nullable TBoolean);
      opt "definition" (nullable TBoolean);
      opt "start" (nullable TNumber);
      opt "spread" (nullable TBoolean);
      req "children" (TArray ListContent) ].

Definition IETFLangTag : ty := TString.

(** The types of the enumerated attributes of [Image], in the order of
    the declaration. *)
Definition Image_kind : ty :=
  TUnion
    [ TStrLit "thumb";
      TStrLit "thumbnail";
      TTemplate "thumb=" [] HString "";
      TTemplate "thumbnail=" [] HString "";
      TStrLit "frame";
      TStrLit "framed";
      TStrLit "frameless" ].

Definition Image_location : ty :=
  TUnion (lits ["left"; "right"; "center"; "none"]).

Definition Image_aligntment : ty :=
  TUnion
    (lits ["baseline"; "sub"; "super"; "top"; "text-top"; "middle";
           "bottom"; "text-bottom"]).

Definition Image_size : ty :=
  TUnion
    [ TStrLit "upright";
      TTemplate "upright=" [] HNumber "";
      TTemplate "" [] HNumber "px";
      TTemplate "x" [] HNumber "px";
      TTemplate "" [(HNumber, "x")] HNumber "px" ].

Definition Image_decl : list prop :=
  extends [Node_decl; Resource_decl; Alternative_decl]
    [ req "type" (TStrLit "image");
      req "prefix" (TUnion (lits ["File"; "Image"]));
      req "name" TString;
      opt "kind" Image_kind;
      opt "border" TBoolean;
      opt "location" Image_location;
      opt "aligntment" Image_aligntment;
      opt "size" Image_size;
      opt "link" (TRef Link);
      opt "alt" TString;
      opt "langtag" IETFLangTag;
      opt "class" TString;
      opt "upright" TNumber;
      opt "caption" PhrasingContent ].

(** *** Non-markdown nodes *)

(** The properties that the body of [File] declares besides its tag. *)
Definition File_added : list prop :=
  [ opt "page" TNumber;
    opt "thumbtime" (TStrLit "Time");
    opt "start" TNumber;
    opt "end" TNumber ].

Definition File_decl : list prop :=
  extends [omit "type" Image_decl]
    (req "type" (TStrLit "file") :: File_added).

Definition Signature_decl : list prop :=
  extends [Node_decl]
    [ req "type" (TStrLit "signature");
      req "showName" TBoolean;
      req "showTime" TBoolean ].

Definition Redirect_decl : list prop :=
  extends [Node_decl]
    [ req "type" (TStrLit "redirect");
      req "value" (TRef Link) ].

Definition TOC_decl : list prop :=
  extends [Node_decl]
    [ req "type" (TStrLit "toc");
      opt "forced" (nullable TBoolean);
      opt "disabled" (nullable TBoolean) ].

(** *** Custom html tags *)

Definition Nowiki_decl : list prop := extends [Node_decl] [].

Definition References_decl : list prop :=
  extends [Node_decl] [ req "type" (TStrLit "references") ].

Definition Gallery_decl : list prop :=
  extends [Parent_decl]
    [ req "type" (TStrLit "gallery");
      req "children" (TArray (TRef Image));
      req "attributes"
        (TObject
           [ opt "mode"
               (TUnion
                  (lits ["traditional"; "nolines"; "packed"; "packed-overlay";
                         "packed-hover"; "slideshow"]));
             opt "caption" TString;
             opt "widths" TString;
             opt "heights" TString;
             opt "perrow" TNumber;
             opt "showfilename" (TStrLit "yes");
             opt "class" TString;
             opt "style" TString ]) ].

Definition Math_decl : list prop :=
  extends [Literal_decl] [ req "type" (TStrLit "math") ].

Definition SyntaxHighlighting_decl : list prop :=
  extends [Literal_decl] [ req "type" (TStrLit "syntaxHighlighting") ].

(** The properties an interface name stands for. *)
Definition props (i : iface) : list prop :=
  match i with
  | Node => Node_decl
  | UnistParent => UnistParent_decl
  | UnistLiteral => UnistLiteral_decl
  | Parent => Parent_decl
  | Literal => Literal_decl
  | Root => Root_decl
  | Heading => Heading_decl
  | ThematicBreak => ThematicBreak_decl
  | ListItem => ListItem_decl
  | Table => Table_decl
  | TableRow => TableRow_decl
  | TableCell => TableCell_decl
  | HTML => HTML_decl
  | Definition_ => Definition_decl
  | FootnoteDefinition => FootnoteDefinition_decl
  | Text => Text_decl
  | Emphasis => Emphasis_decl
  | Strong => Strong_decl
  | Delete => Delete_decl
  | Break => Break_decl
  | Link => Link_decl
  | LinkReference => LinkReference_decl
  | Footnote => Footnote_decl
  | FootnoteReference => FootnoteReference_decl
  | Resource => Resource_decl
  | Association => Association_decl
  | Reference => Reference_decl
  | Alternative => Alternative_decl
  | Paragraph => Paragraph_decl
  | List_ => List_decl
  | Image => Image_decl
  | File => File_decl
  | Signature => Signature_decl
  | Redirect => Redirect_decl
  | TOC => TOC_decl
  | Nowiki => Nowiki_decl
  | References => References_decl
  | Gallery => Gallery_decl
  | Math => Math_decl
  | SyntaxHighlighting => SyntaxHighlighting_decl
  end.

(** ** Conformance *)

(** One property against an object: a required property must be there
    with a value of its type; an optional one may be missing or
    [undefined].  Properties that the type does not declare are not
    looked at. *)
Definition has_prop (chk : value -> ty -> bool) (p : prop)
  : list (string * value) -> bool :=
  fix find (fs : list (string * value)) : bool :=
    match fs with
    | [] => optional p
    | (k, x) :: r =>
        if String.eqb k (pname p)
        then (optional p && is_undefined x) || chk x (ptype p)
        else find r
    end.

Definition has_props (chk : value -> ty -> bool) (ps : list prop)
  (fs : list (string * value)) : bool :=
  forallb (fun p => has_prop chk p fs) ps.

(** [conforms v t]: the value [v] is assignable to the type [t]. *)
Fixpoint conforms (v : value) {struct v} : ty -> bool :=
  fix on_ty (t : ty) {struct t} : bool :=
    match t with
    | TUnknown => true
    | TString => match v with VStr _ => true | _ => false end
    | TNumber => match v with VNum _ => true | _ => false end
    | TBoolean => match v with VBool _ => true | _ => false end
    | TNull => match v with VNull => true | _ => false end
    | TUndefined => match v with VUndefined => true | _ => false end
    | TStrLit s => match v with VStr s' => String.eqb s' s | _ => false end
    | TNumLit z =>
        match v with
        | VNum q => Qeq_bool q (inject_Z z)
        | _ => false
        end
    | TTemplate head inner h tail =>
        match v with
        | VStr s => template_match head inner h tail s
        | _ => false
        end
    | TUnion alts => existsb on_ty alts
    | TArray elem =>
        match v with
        | VArr items => forallb (fun c => conforms c elem) items
        | _ => false
        end
    | TRef i =>
        match v with
        | VObj fs => has_props conforms (props i) fs
        | _ => false
        end
    | TObject ps =>
        match v with
        | VObj fs => has_props conforms ps fs
        | _ => false
        end
    end.

(** ** Node kinds, categories, trees *)

(** The node kinds a content-category map registers. *)
Definition registered (m : list prop) (i : iface) : bool :=
  existsb
    (fun p => match ptype p with TRef j => iface_beq j i | _ => false end)
    m.

(** The declaration of the property [k] in a property list. *)
Definition decl_of (k : string) (ps : list prop) : option prop :=
  find (fun p => String.eqb (pname p) k) ps.

(** The literal an interface declares for its [type] field, if it does. *)
Definition declared_tag (i : iface) : option string :=
  match decl_of "type" (props i) with
  | Some (Prop_ _ false (TStrLit s)) => Some s
  | _ => None
  end.

(** [any_node P v]: [P] holds of [v] or of a node below it, going down
    through the children sequences. *)
Fixpoint any_node (P : value -> bool) (v : value) {struct v} : bool :=
  P v
  || match v with
     | VObj fs =>
         (fix kids (fs : list (string * value)) : bool :=
            match fs with
            | [] => false
            | (k, x) :: r =>
                if String.eqb k "children"
                then match x with
                     | VArr l => existsb (any_node P) l
                     | _ => false
                     end
                else kids r
            end) fs
     | _ => false
     end.

Definition has_tag (s : string) (v : value) : bool :=
  match tag v with
  | Some s' => String.eqb s' s
  | None => false
  end.

Definition is_link (v : value) : bool :=
  has_tag "link" v || has_tag "linkReference" v.

(** ** Sample nodes *)

Definition obj_set (k : string) (x : value) (fs : list (string * value))
  : list (string * value) :=
  (k, x) :: filter (fun e => negb (String.eqb (fst e) k)) fs.

Definition text_node (s : string) : value :=
  VObj [("type", VStr "text"); ("value", VStr s)].

Definition link_node (url : string) (kids : list value) : value :=
  VObj [("type", VStr "link"); ("url", VStr url); ("children", VArr kids)].

Definition emphasis_node (kids : list value) : value :=
  VObj [("type", VStr "emphasis"); ("children", VArr kids)].

Definition heading_node (depth : Q) (kids : list value) : value :=
  VObj [("type", VStr "heading"); ("depth", VNum depth);
        ("children", VArr kids)].

Definition image_fields (extra : list (string * value))
  : list (string * value) :=
  [("type", VStr "image"); ("url", VStr "Example.png");
   ("prefix", VStr "Image"); ("name", VStr "Example.png")] ++ extra.

Definition image_node (extra : list (string * value)) : value :=
  VObj (image_fields extra).

Definition file_node (extra : list (string * value)) : value :=
  VObj (obj_set "type" (VStr "file") (image_fields extra)).

Definition gallery_node (kids : list value) : value :=
  VObj [("type", VStr "gallery"); ("children", VArr kids);
        ("attributes", VObj [])].

Definition table_node (rows : list value) : value :=
  VObj [("type", VStr "table"); ("children", VArr rows)].

Definition tableRow_node (cells : list value) : value :=
  VObj [("type", VStr "tableRow"); ("children", VArr cells)].

Definition tableCell_node (kids : list value) : value :=
  VObj [("type", VStr "tableCell"); ("children", VArr kids)].

Definition definition_node (identifier url : string) : value :=
  VObj [("type", VStr "definition"); ("identifier", VStr identifier);
        ("url", VStr url)].

Definition redirect_node (target : value) : value :=
  VObj [("type", VStr "redirect"); ("value", target)].

(** A link inside an emphasis inside a link. *)
Definition link_under_link : value :=
  link_node "https://example.org/outer"
    [emphasis_node [link_node "https://example.org/inner" [text_node "a"]]].

(** The content-category maps of the source. *)
Definition category_maps : list (list prop) :=
  [BlockContentMap; DefinitionContentMap; StaticPhrasingContentMap;
   PhrasingContentMap; ListContentMap; TableContentMap; RowContentMap].

Definition registered_somewhere (i : iface) : bool :=
  existsb (fun m => registered m i) category_maps.

(** The numbers that the [depth] of a heading may be. *)
Definition depth_literal (q : Q) : bool :=
  existsb (fun z => Qeq_bool q (inject_Z z)) [1; 2; 3; 4; 5; 6]%Z.

Definition footnoteDefinition_node (identifier : string) (kids : list value)
  : value :=
  VObj [("type", VStr "footnoteDefinition"); ("identifier", VStr identifier);
        ("children", VArr kids)].

Definition paragraph_node (kids : list value) : value :=
  VObj [("type", VStr "paragraph"); ("children", VArr kids)].

(** The interfaces named in the [extends] clause of each interface.
    ([File] extends [Omit<Image, 'type'>], which is no interface name.) *)
Definition bases (i : iface) : list iface :=
  match i with
  | Node | Resource | Association | Alternative | File => []
  | UnistParent | UnistLiteral => [Node]
  | Parent => [UnistParent]
  | Literal => [UnistLiteral]
  | Root | Heading | ListItem | Table | TableRow | TableCell | Emphasis
  | Strong | Delete | Footnote | Paragraph | List_ | Gallery => [Parent]
  | ThematicBreak | Break | Signature | Redirect | TOC | Nowiki
  | References => [Node]
  | HTML | Text | Math | SyntaxHighlighting => [Literal]
  | Definition_ => [Node; Association; Resource]
  | FootnoteDefinition => [Parent; Association]
  | Link => [Parent; Resource]
  | LinkReference => [Parent; Reference]
  | FootnoteReference => [Node; Association]
  | Reference => [Association]
  | Image => [Node; Resource; Alternative]
  end.

(** The type of the [attributes] of a gallery, as [Gallery] declares it. *)
Definition Gallery_attributes : ty :=
  TObject
    [ opt "mode"
        (TUnion
           (lits ["traditional"; "nolines"; "packed"; "packed-overlay";
                  "packed-hover"; "slideshow"]));
      opt "caption" TString;
      opt "widths" TString;
      opt "heights" TString;
      opt "perrow" TNumber;
      opt "showfilename" (TStrLit "yes");
      opt "class" TString;
      opt "style" TString ].

Definition list_node (items : list value) : value :=
  VObj [("type", VStr "list"); ("children", VArr items)].

Definition listItem_node (kids : list value) : value :=
  VObj [("type", VStr "listItem"); ("children", VArr kids)].

Definition linkReference_node (identifier referenceType : string)
  (kids : list value) : value :=
  VObj [("type", VStr "linkReference"); ("identifier", VStr identifier);
        ("referenceType", VStr referenceType); ("children", VArr kids)].

Definition footnoteReference_node (identifier : string) : value :=
  VObj [("type", VStr "footnoteReference"); ("identifier", VStr identifier)].

(** A link placed directly under a link. *)
Definition link_in_link : value :=
  link_node "https://example.org/outer"
    [link_node "https://example.org/inner" [text_node "a"]].

(** A definition and a redirect that carry a children sequence. *)
Definition definition_with_children : value :=
  VObj [("type", VStr "definition"); ("identifier", VStr "a");
        ("url", VStr "https://example.org");
        ("children", VArr [text_node "a"])].

Definition redirect_with_children : value :=
  VObj [("type", VStr "redirect");
        ("value", link_node "United States" []);
        ("children", VArr [text_node "a"])].

(** * Properties *)

(** ** Unfolding the conformance test *)

Section Unfolding.

Variable chk : value -> ty -> bool.

Lemma has_prop_get (p : prop) (fs : list (string * value)) :
  has_prop chk p fs =
  match get (pname p) fs with
  | Some x => (optional p && is_undefined x) || chk x (ptype p)
  | None => optional p
  end.
Proof.
  induction fs as [|[k x] r IH]; simpl; [reflexivity|].
  destruct (String.eqb k (pname p)); [reflexivity | exact IH].
Qed.

Lemma has_props_In (ps : list prop) (fs : list (string * value)) (p : prop) :
  has_props chk ps fs = true -> In p ps -> has_prop chk p fs = true.
Proof.
  unfold has_props. rewrite forallb_forall. intros H Hin. exact (H p Hin).
Qed.

Lemma has_props_required (ps : list prop) (fs : list (string * value))
  (k : string) (t : ty) :
  has_props chk ps fs = true -> In (req k t) ps ->
  exists x, get k fs = Some x /\ chk x t = true.
Proof.
  intros H Hin. pose proof (has_props_In _ _ _ H Hin) as Hp.
  rewrite has_prop_get in Hp. simpl in Hp.
  destruct (get k fs) as [x|]; [|discriminate].
  exists x. split; [reflexivity | exact Hp].
Qed.

Lemma has_props_optional (ps : list prop) (fs : list (string * value))
  (k : string) (t : ty) (x : value) :
  has_props chk ps fs = true -> In (opt k t) ps -> get k fs = Some x ->
  x = VUndefined \/ chk x t = true.
Proof.
  intros H Hin Hget. pose proof (has_props_In _ _ _ H Hin) as Hp.
  rewrite has_prop_get in Hp. simpl in Hp. rewrite Hget in Hp.
  apply orb_true_iff in Hp. destruct Hp as [Hu | Hc]; [left | right; exact Hc].
  destruct x; try discriminate. reflexivity.
Qed.

End Unfolding.

Lemma conforms_union (v : value) (alts : list ty) :
  conforms v (TUnion alts) = existsb (conforms v) alts.
Proof. destruct v; reflexivity. Qed.

Lemma conforms_members (v : value) (m : list prop) :
  conforms v (members m) = existsb (fun p => conforms v (ptype p)) m.
Proof.
  unfold members. rewrite conforms_union.
  induction m as [|p m IH]; simpl; [reflexivity | now rewrite IH].
Qed.

Lemma conforms_ref (fs : list (string * value)) (i : iface) :
  conforms (VObj fs) (TRef i) = has_props conforms (props i) fs.
Proof. reflexivity. Qed.

Lemma conforms_ref_inv (v : value) (i : iface) :
  conforms v (TRef i) = true ->
  exists fs, v = VObj fs /\ has_props conforms (props i) fs = true.
Proof.
  destruct v; simpl; try discriminate. intros H. eexists. split; eauto.
Qed.

Lemma conforms_array_inv (x : value) (t : ty) :
  conforms x (TArray t) = true ->
  exists l, x = VArr l /\ forall c, In c l -> conforms c t = true.
Proof.
  destruct x; simpl; try discriminate. intros H.
  eexists. split; [reflexivity|]. rewrite forallb_forall in H. exact H.
Qed.

Lemma conforms_strlit_inv (x : value) (s : string) :
  conforms x (TStrLit s) = true -> x = VStr s.
Proof.
  destruct x; simpl; try discriminate. intros H.
  apply String.eqb_eq in H. now subst.
Qed.

(** A node that conforms to an interface has the children its
    declaration asks for ... *)
Lemma conforms_children (v : value) (i : iface) (t : ty) :
  In (req "children" (TArray t)) (props i) ->
  conforms v (TRef i) = true ->
  forall c, In c (children v) -> conforms c t = true.
Proof.
  intros Hin Hv c Hc.
  destruct (conforms_ref_inv _ _ Hv) as (fs & -> & Hps).
  destruct (has_props_required _ _ _ _ _ Hps Hin) as (x & Hget & Hx).
  destruct (conforms_array_inv _ _ Hx) as (l & -> & Hl).
  unfold children, field in Hc. rewrite Hget in Hc. auto.
Qed.

(** ... and the tag it declares. *)
Lemma conforms_tag (v : value) (i : iface) (s : string) :
  In (req "type" (TStrLit s)) (props i) ->
  conforms v (TRef i) = true -> tag v = Some s.
Proof.
  intros Hin Hv.
  destruct (conforms_ref_inv _ _ Hv) as (fs & -> & Hps).
  destruct (has_props_required _ _ _ _ _ Hps Hin) as (x & Hget & Hx).
  apply conforms_strlit_inv in Hx. subst x.
  unfold tag, field. now rewrite Hget.
Qed.

Lemma any_node_unfold (P : value -> bool) (v : value) :
  any_node P v = P v || existsb (any_node P) (children v).
Proof.
  destruct v; simpl; try now rewrite ?orb_false_r.
  f_equal. unfold children, field.
  induction fields as [|[k x] r IH]; simpl; [reflexivity|].
  destruct (String.eqb k "children"); [|exact IH].
  destruct x; reflexivity.
Qed.

(** A property that an interface does not declare has no part in the
    test. *)
Lemma undeclared_ignored (i : iface) (k : string) (x : value)
  (fs : list (string * value)) :
  declares (props i) k = false ->
  conforms (VObj ((k, x) :: fs)) (TRef i) = conforms (VObj fs) (TRef i).
Proof.
  rewrite !conforms_ref. unfold has_props, declares.
  induction (props i) as [|p ps IH]; intros Hd; [reflexivity|].
  simpl in Hd. apply orb_false_iff in Hd. destruct Hd as (Hp & Hps).
  cbn [forallb]. rewrite (IH Hps). f_equal.
  cbn [has_prop]. rewrite String.eqb_sym, Hp. reflexivity.
Qed.

(** ** Tables *)

Lemma TableRow_children (r : value) :
  conforms r (TRef TableRow) = true ->
  forall c, In c (children r) ->
    conforms c (TRef TableCell) = true /\ tag c = Some "tableCell".
Proof.
  intros Hr c Hc.
  assert (Hcell : conforms c (TRef TableCell) = true).
  { pose proof (conforms_children r TableRow RowContent) as H.
    specialize (H ltac:(simpl; auto) Hr c Hc).
    unfold RowContent in H. rewrite conforms_members in H. simpl in H.
    now rewrite orb_false_r in H. }
  split; [exact Hcell|].
  apply (conforms_tag c TableCell); [simpl; auto | exact Hcell].
Qed.

Lemma Table_children (t : value) :
  conforms t (TRef Table) = true ->
  forall r, In r (children t) ->
    conforms r (TRef TableRow) = true /\ tag r = Some "tableRow".
Proof.
  intros Ht r Hr.
  assert (Hrow : conforms r (TRef TableRow) = true).
  { pose proof (conforms_children t Table TableContent) as H.
    specialize (H ltac:(simpl; auto) Ht r Hr).
    unfold TableContent in H. rewrite conforms_members in H. simpl in H.
    now rewrite orb_false_r in H. }
  split; [exact Hrow|].
  apply (conforms_tag r TableRow); [simpl; auto | exact Hrow].
Qed.

(** C6: tables nest in three strict levels.  The table-content map
    registers the tableRow kind and no other, the row-content map the
    tableCell kind and no other; every child of a conforming table is a
    conforming tableRow (tagged so), and every child of a conforming
    tableRow is a conforming tableCell (tagged so). *)
Theorem C6_table_nesting :
  (forall i, registered TableContentMap i = true <-> i = TableRow) /\
  (forall i, registered RowContentMap i = true <-> i = TableCell) /\
  (forall t, conforms t (TRef Table) = true ->
     forall r, In r (children t) ->
       conforms r (TRef TableRow) = true /\ tag r = Some "tableRow") /\
  (forall r, conforms r (TRef TableRow) = true ->
     forall c, In c (children r) ->
       conforms c (TRef TableCell) = true /\ tag c = Some "tableCell").
Proof.
  split; [|split; [|split]].
  - intros i. destruct i; vm_compute; split; congruence.
  - intros i. destruct i; vm_compute; split; congruence.
  - exact Table_children.
  - exact TableRow_children.
Qed.

Lemma C6_table_nesting_witness :
  conforms (table_node [tableRow_node [tableCell_node [text_node "a"]]])
    (TRef Table) = true /\
  (conforms (tableRow_node [tableCell_node [text_node "a"]]) (TRef TableRow)
   = true /\
   tag (tableRow_node [tableCell_node [text_node "a"]]) = Some "tableRow") /\
  (conforms (tableCell_node [text_node "a"]) (TRef TableCell) = true /\
   tag (tableCell_node [text_node "a"]) = Some "tableCell").
Proof.
  destruct C6_table_nesting as (_ & _ & Htable & Hrow).
  split; [reflexivity|]. split.
  - apply (Htable (table_node [tableRow_node [tableCell_node [text_node "a"]]]));
      [reflexivity | simpl; auto].
  - apply (Hrow (tableRow_node [tableCell_node [text_node "a"]]));
      [reflexivity | simpl; auto].
Defined.

(** A cell put directly under a table, or a row under a row, is refused. *)
Lemma table_levels_not_skipped :
  conforms (table_node [tableCell_node []]) (TRef Table) = false /\
  conforms (tableRow_node [tableRow_node []]) (TRef TableRow) = false /\
  conforms (table_node [text_node "a"]) (TRef Table) = false.
Proof. repeat split; reflexivity. Qed.

(** ** Galleries *)

Lemma gallery_node_conforms (kids : list value) :
  conforms (gallery_node kids) (TRef Gallery)
  = forallb (fun c => conforms c (TRef Image)) kids.
Proof.
  unfold gallery_node. rewrite conforms_ref.
  cbn. now rewrite !andb_true_r.
Qed.

Lemma distinct_tags_exclude (v : value) (i j : iface) (s s' : string) :
  In (req "type" (TStrLit s)) (props i) ->
  In (req "type" (TStrLit s')) (props j) ->
  s <> s' ->
  conforms v (TRef i) = true -> conforms v (TRef j) = false.
Proof.
  intros Hi Hj Hne Hv.
  destruct (conforms v (TRef j)) eqn:E; [|reflexivity].
  pose proof (conforms_tag _ _ _ Hi Hv) as H1.
  pose proof (conforms_tag _ _ _ Hj E) as H2.
  congruence.
Qed.

(** C5: every child of a conforming gallery is a conforming image node,
    tagged [image]; no node that conforms to the file variant conforms to
    the image variant; and a gallery of one image and one file is refused,
    the image child passing the child test and the file child failing it. *)
Theorem C5_gallery_children :
  (forall g, conforms g (TRef Gallery) = true ->
     forall c, In c (children g) ->
       conforms c (TRef Image) = true /\ tag c = Some "image") /\
  (forall f, conforms f (TRef File) = true -> conforms f (TRef Image) = false) /\
  (forall kids,
     conforms (gallery_node kids) (TRef Gallery)
     = forallb (fun c => conforms c (TRef Image)) kids) /\
  conforms (image_node []) (TRef Image) = true /\
  conforms (file_node []) (TRef File) = true /\
  conforms (gallery_node [image_node []]) (TRef Gallery) = true /\
  conforms (gallery_node [image_node []; file_node []]) (TRef Gallery) = false /\
  map (fun c => conforms c (TRef Image)) [image_node []; file_node []]
  = [true; false].
Proof.
  split; [|split; [|split]].
  - intros g Hg c Hc.
    assert (Hi : conforms c (TRef Image) = true).
    { apply (conforms_children g Gallery (TRef Image)); auto.
      simpl; auto. }
    split; [exact Hi|].
    apply (conforms_tag c Image); [simpl; auto | exact Hi].
  - intros f. apply (distinct_tags_exclude f File Image "file" "image");
      [simpl; auto | simpl; auto | discriminate].
  - exact gallery_node_conforms.
  - repeat split; reflexivity.
Qed.

Lemma C5_gallery_children_witness :
  (conforms (image_node []) (TRef Image) = true /\
   tag (image_node []) = Some "image") /\
  conforms (file_node []) (TRef Image) = false.
Proof.
  destruct C5_gallery_children as (Hkids & Hfile & _).
  split.
  - apply (Hkids (gallery_node [image_node []])); [reflexivity | simpl; auto].
  - apply (Hfile (file_node [])). reflexivity.
Defined.

(** ** Phrasing content *)

(** C7: the phrasing-content map is the static-phrasing-content map
    together with the two entries [link] and [linkReference]: a kind is
    registered as phrasing content exactly when it is registered as
    static phrasing content or is one of the two, neither of which is
    static phrasing content. *)
Theorem C7_phrasing_is_static_plus_links :
  (forall i,
     registered PhrasingContentMap i = true <->
     registered StaticPhrasingContentMap i = true
     \/ i = Link \/ i = LinkReference) /\
  registered StaticPhrasingContentMap Link = false /\
  registered StaticPhrasingContentMap LinkReference = false /\
  (forall p,
     In p PhrasingContentMap <->
     In p StaticPhrasingContentMap
     \/ p = req "link" (TRef Link)
     \/ p = req "linkReference" (TRef LinkReference)).
Proof.
  split; [|split; [|split]].
  - intros i. destruct i; vm_compute;
      (split; [intros H; first [discriminate H | now left | now right; left
                               | now right; right]
              | intros [H | [H | H]]; first [reflexivity | discriminate H]]).
  - reflexivity.
  - reflexivity.
  - intros p. cbv [PhrasingContentMap StaticPhrasingContentMap].
    cbn. intuition congruence.
Qed.

(** ** Headings *)

Lemma heading_node_conforms (q : Q) (kids : list value) :
  conforms (heading_node q kids) (TRef Heading)
  = depth_literal q && forallb (fun c => conforms c PhrasingContent) kids.
Proof.
  unfold heading_node. rewrite conforms_ref. cbn.
  now rewrite !andb_true_r.
Qed.

Lemma depth_literal_Z (k : Z) :
  depth_literal (inject_Z k) = true <-> (1 <= k <= 6)%Z.
Proof.
  unfold depth_literal, Qeq_bool. cbn -[Z.mul].
  rewrite !orb_true_iff, !Z.eqb_eq. split; [lia|].
  intros H.
  assert (E : (k = 1 \/ k = 2 \/ k = 3 \/ k = 4 \/ k = 5 \/ k = 6)%Z) by lia.
  intuition (subst; auto).
Qed.

Lemma depth_literal_inv (q : Q) :
  depth_literal q = true -> exists k, q == inject_Z k /\ (1 <= k <= 6)%Z.
Proof.
  unfold depth_literal. rewrite existsb_exists.
  intros (k & Hin & Heq). exists k. split.
  - now apply Qeq_bool_iff.
  - simpl in Hin. lia.
Qed.

Lemma conforms_depth_inv (x : value) :
  conforms x (TUnion (map TNumLit [1; 2; 3; 4; 5; 6]%Z)) = true ->
  exists q, x = VNum q /\ depth_literal q = true.
Proof.
  destruct x; try (cbn; discriminate).
  intros H. exists q. split; [reflexivity | exact H].
Qed.

(** C4: the depth of a conforming heading is a number equal to an integer
    between 1 and 6; a heading whose children are phrasing content is
    accepted with each of the depths 1 to 6 and refused with any other
    integer depth, 0 and 7 among them. *)
Theorem C4_heading_depth :
  (forall h, conforms h (TRef Heading) = true ->
     exists q k,
       field "depth" h = Some (VNum q)
       /\ q == inject_Z k /\ (1 <= k <= 6)%Z) /\
  (forall k kids,
     forallb (fun c => conforms c PhrasingContent) kids = true ->
     (conforms (heading_node (inject_Z k) kids) (TRef Heading) = true
      <-> (1 <= k <= 6)%Z)) /\
  (forall kids,
     conforms (heading_node (inject_Z 0) kids) (TRef Heading) = false
     /\ conforms (heading_node (inject_Z 7) kids) (TRef Heading) = false) /\
  map (fun k => conforms (heading_node (inject_Z k) [text_node "a"])
                  (TRef Heading))
    [0; 1; 2; 3; 4; 5; 6; 7]%Z
  = [false; true; true; true; true; true; true; false].
Proof.
  split; [|split; [|split]].
  - intros h Hh.
    destruct (conforms_ref_inv _ _ Hh) as (fs & -> & Hps).
    destruct (has_props_required conforms (props Heading) fs "depth"
                (TUnion (map TNumLit [1; 2; 3; 4; 5; 6]%Z)) Hps)
      as (x & Hget & Hx); [simpl; auto|].
    destruct (conforms_depth_inv _ Hx) as (q & -> & Hq).
    destruct (depth_literal_inv _ Hq) as (k & Hk & Hr).
    exists q, k. simpl. auto.
  - intros k kids Hkids. rewrite heading_node_conforms, Hkids, andb_true_r.
    apply depth_literal_Z.
  - intros kids. rewrite !heading_node_conforms. split; reflexivity.
  - reflexivity.
Qed.

Lemma C4_heading_depth_witness :
  (exists q k,
     field "depth" (heading_node (inject_Z 3) [text_node "a"])
     = Some (VNum q)
     /\ q == inject_Z k /\ (1 <= k <= 6)%Z) /\
  (conforms (heading_node (inject_Z 3) [text_node "a"]) (TRef Heading) = true
   <-> (1 <= 3 <= 6)%Z).
Proof.
  destruct C4_heading_depth as (Hdepth & Hrange & _).
  split.
  - apply (Hdepth (heading_node (inject_Z 3) [text_node "a"])). reflexivity.
  - apply (Hrange 3%Z [text_node "a"]). reflexivity.
Defined.

(** A depth that is not an integer is refused as well. *)
Lemma heading_depth_fraction :
  conforms (heading_node (3 # 2) [text_node "a"]) (TRef Heading) = false.
Proof. reflexivity. Qed.

(** ** Links *)

(** C1 as stated, that no link occurs at any depth below a link, fails: the
    outer link conforms, so do the emphasis inside it and the link inside
    that, each to the interface its tag names. *)
Lemma C1_counterexample :
  conforms link_under_link (TRef Link) = true /\
  forallb (fun c => conforms c (TRef Emphasis)) (children link_under_link)
  = true /\
  forallb
    (fun c => forallb (fun d => conforms d (TRef Link)) (children c))
    (children link_under_link) = true /\
  existsb (any_node is_link) (children link_under_link) = true.
Proof. repeat split; reflexivity. Qed.

Lemma tagged_static_refuses_links (i : iface) (c : value) :
  registered StaticPhrasingContentMap i = true -> i <> Nowiki ->
  conforms c (TRef i) = true -> is_link c = false.
Proof.
  intros Hr Hn Hc.
  destruct i; try discriminate Hr; try (now elim Hn);
    match goal with
    | H : conforms c (TRef ?j) = true |- _ =>
        let s := eval vm_compute in (declared_tag j) in
        match s with
        | Some ?t =>
            pose proof (conforms_tag c j t ltac:(simpl; tauto) H) as Ht
        end
    end;
    unfold is_link, has_tag; rewrite Ht; reflexivity.
Qed.

(** C1, amended: [Link] and [LinkReference] declare their children as
    static phrasing content, where neither link nor linkReference is
    registered.  Every immediate child of a conforming link or
    linkReference is static phrasing content, and every static-phrasing
    interface with a literal tag, that is every one but [Nowiki], refuses
    nodes tagged link or linkReference: an immediate child so tagged is
    accepted by no other interface of the category than [Nowiki].  In
    phrasing content, by contrast, [Link] accepts a link node.  Deeper
    descendants are not covered: emphasis, strong and footnote are static
    phrasing content and take phrasing content as children. *)
Theorem C1_link_children_static :
  decl_of "children" Link_decl
  = Some (req "children" (TArray StaticPhrasingContent)) /\
  decl_of "children" LinkReference_decl
  = Some (req "children" (TArray StaticPhrasingContent)) /\
  registered StaticPhrasingContentMap Link = false /\
  registered StaticPhrasingContentMap LinkReference = false /\
  (forall v,
     conforms v (TRef Link) = true \/ conforms v (TRef LinkReference) = true ->
     forall c, In c (children v) ->
       conforms c StaticPhrasingContent = true
       /\ (forall i,
             registered StaticPhrasingContentMap i = true ->
             conforms c (TRef i) = true ->
             is_link c = true -> i = Nowiki)) /\
  (forall i c,
     registered StaticPhrasingContentMap i = true -> i <> Nowiki ->
     conforms c (TRef i) = true -> is_link c = false) /\
  (registered PhrasingContentMap Link = true
   /\ registered PhrasingContentMap LinkReference = true
   /\ conforms (link_node "https://example.org" []) (TRef Link) = true
   /\ is_link (link_node "https://example.org" []) = true) /\
  (forall i, In i [Emphasis; Strong; Footnote] ->
     registered StaticPhrasingContentMap i = true
     /\ In (req "children" (TArray PhrasingContent)) (props i)).
Proof.
  split; [reflexivity|]. split; [reflexivity|].
  split; [reflexivity|]. split; [reflexivity|].
  split; [|split; [exact tagged_static_refuses_links|split]].
  - intros v Hv c Hc. split.
    + destruct Hv as [Hv | Hv].
      * apply (conforms_children v Link StaticPhrasingContent); auto.
        simpl; tauto.
      * apply (conforms_children v LinkReference StaticPhrasingContent); auto.
        simpl; tauto.
    + intros i Hr Hi Hl.
      destruct (iface_eq_dec i Nowiki) as [E | N]; [exact E|].
      rewrite (tagged_static_refuses_links i c Hr N Hi) in Hl.
      discriminate Hl.
  - repeat split; reflexivity.
  - intros i Hi. simpl in Hi.
    destruct Hi as [<- | [<- | [<- | []]]]; split;
      first [reflexivity | simpl; tauto].
Qed.

Lemma C1_link_children_static_witness :
  (conforms (text_node "a") StaticPhrasingContent = true
   /\ (forall i,
         registered StaticPhrasingContentMap i = true ->
         conforms (text_node "a") (TRef i) = true ->
         is_link (text_node "a") = true -> i = Nowiki))
  /\ is_link (emphasis_node [text_node "a"]) = false.
Proof.
  destruct C1_link_children_static as (_ & _ & _ & _ & Hkids & Htagged & _).
  split.
  - apply (Hkids (link_node "https://example.org" [text_node "a"]));
      [left; reflexivity | simpl; tauto].
  - apply (Htagged Emphasis (emphasis_node [text_node "a"]));
      [reflexivity | discriminate | reflexivity].
Defined.

(** ** Discriminant tags *)

(** C2 fails on [Nowiki]: it is registered as block content and as static
    phrasing content, but its declaration has no body, so its [type] is
    the plain [string] of the base interface; a node tagged [paragraph]
    that is no paragraph is accepted as a nowiki node.  Every other
    registered kind declares a literal tag. *)
Theorem C2_nowiki_has_no_literal_tag :
  registered BlockContentMap Nowiki = true /\
  registered StaticPhrasingContentMap Nowiki = true /\
  decl_of "type" (props Nowiki) = Some (req "type" TString) /\
  declared_tag Nowiki = None /\
  conforms (VObj [("type", VStr "paragraph")]) (TRef Nowiki) = true /\
  conforms (VObj [("type", VStr "paragraph")]) (TRef Paragraph) = false /\
  (forall i, registered_somewhere i = true -> i <> Nowiki ->
     exists s, declared_tag i = Some s).
Proof.
  repeat split; try reflexivity.
  intros i Hi Hne.
  destruct i; try discriminate Hi; try (eexists; reflexivity).
  now elim Hne.
Qed.

(** With [Nowiki] among the static phrasing content, a link placed
    directly under a link is accepted. *)
Lemma nowiki_admits_link_under_link :
  conforms link_in_link (TRef Link) = true /\
  forallb (fun c => conforms c (TRef Nowiki)) (children link_in_link) = true.
Proof. split; reflexivity. Qed.

(** ** Strings and templates *)

Module StringFacts.

Local Open Scope nat_scope.
Local Open Scope string_scope.

Lemma length_app (a b : string) :
  String.length (a ++ b) = String.length a + String.length b.
Proof. induction a as [|c a IH]; simpl; [reflexivity | now rewrite IH]. Qed.

Lemma prefix_app (p s : string) :
  prefix p s = true -> exists r, s = p ++ r.
Proof.
  revert s. induction p as [|c p IH]; intros s H; simpl in *.
  - exists s. reflexivity.
  - destruct s as [|d s]; simpl in H; [discriminate|].
    destruct (ascii_dec c d) as [<- | _]; [|discriminate].
    destruct (IH s H) as (r & ->). exists r. reflexivity.
Qed.

Lemma substring_skip (h r : string) (n m : nat) :
  substring (String.length h + n) m (h ++ r) = substring n m r.
Proof. induction h as [|c h IH]; simpl; [reflexivity | exact IH]. Qed.

Lemma substring_all (s : string) : substring 0 (String.length s) s = s.
Proof. induction s as [|c s IH]; simpl; [reflexivity | now rewrite IH]. Qed.

Lemma substring_take_drop (s : string) (k : nat) :
  k <= String.length s ->
  s = substring 0 k s ++ substring k (String.length s - k) s.
Proof.
  revert k. induction s as [|c s IH]; intros k Hk.
  - destruct k; [reflexivity | simpl in Hk; lia].
  - destruct k as [|k]; simpl.
    + now rewrite substring_all.
    + f_equal. apply IH. simpl in Hk. lia.
Qed.

Lemma length_substring0 (s : string) (n : nat) :
  String.length (substring 0 n s) = Nat.min n (String.length s).
Proof.
  revert n. induction s as [|c s IH]; intros [|n]; simpl; auto.
Qed.

Lemma substring_split (s d : string) (p : nat) :
  substring p (String.length d) s = d ->
  s = substring 0 p s ++ d ++ drop (p + String.length d) s.
Proof.
  unfold drop. revert p. induction s as [|c s IH]; intros p H.
  - assert (d = "") as -> by (destruct p, (String.length d); now simpl in H).
    destruct p; reflexivity.
  - destruct p as [|p].
    + pose proof (length_substring0 (String c s) (String.length d)) as Hl.
      rewrite H in Hl.
      change (substring 0 0 (String c s)) with "". cbn [append Nat.add].
      pose proof (substring_take_drop (String c s) (String.length d)) as E.
      rewrite H in E. apply E. lia.
    + simpl in H. simpl. f_equal. exact (IH p H).
Qed.

End StringFacts.

Module Templates.

Local Open Scope nat_scope.
Local Open Scope string_scope.

Lemma ends_with_app (tail r : string) :
  ends_with tail r = true ->
  r = substring 0 (String.length r - String.length tail) r ++ tail.
Proof.
  unfold ends_with, drop. intros H. apply andb_true_iff in H.
  destruct H as (Hle & He). apply Nat.leb_le in Hle.
  apply String.eqb_eq in He.
  pose proof (StringFacts.substring_take_drop r
                (String.length r - String.length tail)) as E.
  replace (String.length r - (String.length r - String.length tail))
    with (String.length tail) in E by lia.
  replace (String.length r - (String.length r - String.length tail))
    with (String.length tail) in He by lia.
  rewrite He in E. apply E. lia.
Qed.

(** A string that matches a template is its head, a middle part that the
    placeholders match, and its tail. *)
Lemma template_match_inv (head : string) (inner : list (hole * string))
  (h : hole) (tail s : string) :
  template_match head inner h tail s = true ->
  exists mid, s = head ++ mid ++ tail /\ match_inner inner h mid = true.
Proof.
  unfold template_match. intros H.
  apply andb_true_iff in H. destruct H as (H & Hm).
  apply andb_true_iff in H. destruct H as (H & He).
  apply andb_true_iff in H. destruct H as (Hl & Hp).
  apply Nat.leb_le in Hl.
  destruct (StringFacts.prefix_app _ _ Hp) as (r & ->).
  rewrite StringFacts.length_app in *.
  assert (Htl : String.length tail <= String.length r) by lia.
  replace (String.length head + String.length r - String.length head
           - String.length tail)
    with (String.length r - String.length tail) in Hm by lia.
  rewrite <- (Nat.add_0_r (String.length head)) in Hm at 1.
  rewrite StringFacts.substring_skip in Hm.
  exists (substring 0 (String.length r - String.length tail) r).
  split; [|exact Hm]. f_equal.
  apply ends_with_app.
  unfold ends_with, drop in *. rewrite StringFacts.length_app in He.
  apply andb_true_iff in He. destruct He as (_ & He).
  apply andb_true_iff. split; [now apply Nat.leb_le|].
  replace (String.length head + String.length r - String.length tail)
    with (String.length head + (String.length r - String.length tail))
    in He by lia.
  rewrite StringFacts.substring_skip in He.
  replace (String.length head + String.length r
           - (String.length head + (String.length r - String.length tail)))
    with (String.length r - (String.length r - String.length tail))
    in He by lia.
  exact He.
Qed.

Lemma match_inner_one_inv (h1 h : hole) (delim mid : string) :
  match_inner [(h1, delim)] h mid = true ->
  exists a b,
    mid = a ++ delim ++ b /\ hole_ok h1 a = true /\ hole_ok h b = true.
Proof.
  simpl. destruct (index 0 delim mid) as [p|] eqn:E; [|discriminate].
  intros H. apply andb_true_iff in H. destruct H as (Ha & Hb).
  exists (substring 0 p mid), (drop (p + String.length delim) mid).
  split; [|split; assumption].
  apply StringFacts.substring_split.
  exact (index_correct1 _ _ _ _ E).
Qed.

End Templates.

(** ** The enumerated attributes of images and files *)

Module Attributes.

Local Open Scope string_scope.

Lemma append_empty_r (s : string) : s ++ "" = s.
Proof. induction s as [|c s IH]; simpl; [reflexivity | now rewrite IH]. Qed.

Lemma append_assoc (a b c : string) : a ++ (b ++ c) = (a ++ b) ++ c.
Proof. induction a as [|x a IH]; simpl; [reflexivity | now rewrite IH]. Qed.

(** A value of the [size] type is a string of one of the five declared
    forms. *)
Lemma Image_size_forms (x : value) :
  conforms x Image_size = true ->
  exists s,
    x = VStr s
    /\ (s = "upright"
        \/ (exists n, number_string n = true /\ s = "upright=" ++ n)
        \/ (exists n, number_string n = true /\ s = n ++ "px")
        \/ (exists n, number_string n = true /\ s = "x" ++ n ++ "px")
        \/ (exists n m,
              number_string n = true /\ number_string m = true
              /\ s = n ++ "x" ++ m ++ "px")).
Proof.
  destruct x as [| | | |s| |]; try (cbn; discriminate).
  unfold Image_size. rewrite conforms_union. cbn [existsb].
  rewrite orb_false_r, !orb_true_iff.
  intros H. exists s. split; [reflexivity|].
  destruct H as [H | [H | [H | [H | H]]]].
  - left. apply conforms_strlit_inv in H. congruence.
  - right; left.
    destruct (Templates.template_match_inv _ _ _ _ _ H) as (n & -> & Hn).
    exists n. rewrite append_empty_r. auto.
  - right; right; left.
    destruct (Templates.template_match_inv _ _ _ _ _ H) as (n & -> & Hn).
    exists n. auto.
  - right; right; right; left.
    destruct (Templates.template_match_inv _ _ _ _ _ H) as (n & -> & Hn).
    exists n. auto.
  - right; right; right; right.
    destruct (Templates.template_match_inv _ _ _ _ _ H) as (mid & -> & Hm).
    destruct (Templates.match_inner_one_inv _ _ _ _ Hm)
      as (n & m & -> & Hn & Hm').
    exists n, m. repeat split; auto.
    simpl. now rewrite <- !append_assoc.
Qed.

(** A value of the [kind] type is one of the five literals or starts with
    [thumb=] or [thumbnail=]. *)
Lemma Image_kind_forms (x : value) :
  conforms x Image_kind = true ->
  exists s,
    x = VStr s
    /\ (In s ["thumb"; "thumbnail"; "frame"; "framed"; "frameless"]
        \/ (exists r, s = "thumb=" ++ r)
        \/ (exists r, s = "thumbnail=" ++ r)).
Proof.
  destruct x as [| | | |s| |]; try (cbn; discriminate).
  unfold Image_kind. rewrite conforms_union. cbn [existsb].
  rewrite orb_false_r, !orb_true_iff.
  intros H. exists s. split; [reflexivity|].
  destruct H as [H | [H | [H | [H | [H | [H | H]]]]]];
    try (apply conforms_strlit_inv in H; injection H as ->;
         left; simpl; tauto).
  - right; left.
    destruct (Templates.template_match_inv _ _ _ _ _ H) as (r & -> & _).
    exists r. now rewrite append_empty_r.
  - right; right.
    destruct (Templates.template_match_inv _ _ _ _ _ H) as (r & -> & _).
    exists r. now rewrite append_empty_r.
Qed.

(** On image and file nodes alike, [kind], [location] and [size] hold,
    when given, a value of their declared type. *)
Lemma enumerated_attributes (i : iface) (fs : list (string * value))
  (k : string) (t : ty) (x : value) :
  i = Image \/ i = File ->
  In (k, t)
    [("kind", Image_kind); ("location", Image_location);
     ("aligntment", Image_aligntment); ("size", Image_size)] ->
  conforms (VObj fs) (TRef i) = true ->
  get k fs = Some x ->
  x = VUndefined \/ conforms x t = true.
Proof.
  intros Hi Hk Hv Hget. rewrite conforms_ref in Hv.
  apply (has_props_optional conforms (props i) fs k t x Hv); [|exact Hget].
  simpl in Hk.
  destruct Hi as [-> | ->];
    destruct Hk as [E | [E | [E | [E | []]]]]; injection E as <- <-;
    simpl; tauto.
Qed.

End Attributes.

(** ** Images and files *)

Lemma conforms_lits_inv (x : value) (l : list string) :
  conforms x (TUnion (lits l)) = true -> exists s, x = VStr s /\ In s l.
Proof.
  rewrite conforms_union. unfold lits. rewrite existsb_exists.
  intros (t & Hin & Ht). apply in_map_iff in Hin.
  destruct Hin as (s & <- & Hs). apply conforms_strlit_inv in Ht.
  exists s. auto.
Qed.

(** The location of a conforming image, when given, is one of its four
    literals; so is what the declaration calls [aligntment], of its
    eight. *)
Lemma Image_location_values (fs : list (string * value)) (x : value) :
  conforms (VObj fs) (TRef Image) = true ->
  get "location" fs = Some x ->
  x = VUndefined
  \/ exists s, x = VStr s /\ In s ["left"; "right"; "center"; "none"].
Proof.
  intros Hv Hget. rewrite conforms_ref in Hv.
  destruct (has_props_optional conforms (props Image) fs "location"
              Image_location x Hv)
    as [Hu | Hx]; [simpl; tauto | exact Hget | now left |].
  right. now apply conforms_lits_inv.
Qed.

Lemma Image_aligntment_values (fs : list (string * value)) (x : value) :
  conforms (VObj fs) (TRef Image) = true ->
  get "aligntment" fs = Some x ->
  x = VUndefined
  \/ exists s,
       x = VStr s
       /\ In s ["baseline"; "sub"; "super"; "top"; "text-top"; "middle";
                "bottom"; "text-bottom"].
Proof.
  intros Hv Hget. rewrite conforms_ref in Hv.
  destruct (has_props_optional conforms (props Image) fs "aligntment"
              Image_aligntment x Hv)
    as [Hu | Hx]; [simpl; tauto | exact Hget | now left |].
  right. now apply conforms_lits_inv.
Qed.

(** The declared forms of [size] and [kind], tried on examples. *)
Lemma Image_size_examples :
  map (fun s => conforms (image_node [("size", VStr s)]) (TRef Image))
    ["upright"; "upright=0.6"; "120px"; "x80px"; "10x20px";
     "wide"; "upright="; "px"; "xpx"; "10x20"; "tenpx"; "10xpx"]
  = [true; true; true; true; true;
     false; false; false; false; false; false; false].
Proof. reflexivity. Qed.

Lemma Image_kind_examples :
  map (fun s => conforms (image_node [("kind", VStr s)]) (TRef Image))
    ["thumb"; "thumbnail"; "thumb=Other.png"; "thumbnail=Other.png";
     "frame"; "framed"; "frameless"; "thumbs"; "border"; ""]
  = [true; true; true; true; true; true; true; false; false; false].
Proof. reflexivity. Qed.

(** C3 fails on the alignment attribute: the declaration spells it
    [aligntment], so neither [Image] nor [File] declares [alignment], and
    an image or file whose [alignment] is outside the list is accepted,
    while the same value under the declared spelling is refused. *)
Theorem C3_alignment_is_not_declared :
  declares Image_decl "alignment" = false /\
  declares File_decl "alignment" = false /\
  declares Image_decl "aligntment" = true /\
  conforms (image_node [("alignment", VStr "bogus")]) (TRef Image) = true /\
  conforms (file_node [("alignment", VStr "bogus")]) (TRef File) = true /\
  conforms (image_node [("aligntment", VStr "bogus")]) (TRef Image) = false /\
  conforms (image_node [("aligntment", VStr "middle")]) (TRef Image) = true.
Proof. repeat split; reflexivity. Qed.

Lemma get_obj_set_same (k : string) (x : value) (fs : list (string * value)) :
  get k (obj_set k x fs) = Some x.
Proof. unfold obj_set. simpl. now rewrite String.eqb_refl. Qed.

Lemma get_obj_set_other (k k' : string) (x : value)
  (fs : list (string * value)) :
  k' <> k -> get k' (obj_set k x fs) = get k' fs.
Proof.
  intros Hne. unfold obj_set. simpl.
  destruct (String.eqb_spec k k') as [E | _]; [now elim Hne|].
  induction fs as [|[k0 x0] r IH]; simpl; [reflexivity|].
  destruct (String.eqb_spec k0 k) as [-> | Hk0]; simpl.
  - destruct (String.eqb_spec k k') as [E | _]; [now elim Hne | exact IH].
  - destruct (String.eqb k0 k'); [reflexivity | exact IH].
Qed.

Lemma File_decl_members (p : prop) :
  In p File_decl <->
  p = req "type" (TStrLit "file")
  \/ In p File_added
  \/ (In p Image_decl /\ pname p <> "type").
Proof.
  cbv [File_decl File_added Image_decl Node_decl Resource_decl
       Alternative_decl]. cbn -[Image_kind Image_location Image_aligntment
                                Image_size].
  split.
  - intros H.
    repeat (destruct H as [<- | H];
            [first [now left | right; left; simpl; tauto
                   | right; right; split; [simpl; tauto | discriminate]] |]).
    contradiction.
  - intros [-> | [H | [H Hne]]]; [tauto | tauto |].
    repeat (destruct H as [<- | H]; [first [now elim Hne | tauto] |]).
    contradiction.
Qed.

(** C9 as stated, that every record valid for [Image] is, retagged, valid
    for [File], fails on a record that carries one of the attributes [File]
    adds, which [Image] does not constrain. *)
Lemma C9_counterexample :
  conforms (image_node [("page", VStr "abc")]) (TRef Image) = true /\
  conforms (file_node [("page", VStr "abc")]) (TRef File) = false.
Proof. split; reflexivity. Qed.

(** C9, amended: [File] declares every property of [Image] other than
    [type] with the same type and optionality, and besides these and its
    own tag only [page], [thumbtime], [start] and [end], all optional; so
    a record valid for [Image] is, retagged, valid for [File] whenever the
    four added attributes are absent from it or hold values that [File]
    allows. *)
Theorem C9_file_extends_image :
  (forall p, In p Image_decl -> pname p <> "type" -> In p File_decl) /\
  (forall p,
     In p File_decl <->
     p = req "type" (TStrLit "file")
     \/ In p File_added
     \/ (In p Image_decl /\ pname p <> "type")) /\
  map pname File_added = ["page"; "thumbtime"; "start"; "end"] /\
  forallb optional File_added = true /\
  (forall fs,
     (forall p, In p File_added -> get (pname p) fs = None) ->
     has_props conforms File_added fs = true) /\
  (forall fs,
     conforms (VObj fs) (TRef Image) = true ->
     has_props conforms File_added fs = true ->
     conforms (VObj (obj_set "type" (VStr "file") fs)) (TRef File) = true).
Proof.
  split; [|split; [|split; [|split; [|split]]]]; try reflexivity.
  - intros p Hin Hne. apply File_decl_members. auto.
  - exact File_decl_members.
  - intros fs Habs. unfold has_props. apply forallb_forall. intros p Hin.
    rewrite has_prop_get, (Habs p Hin).
    simpl in Hin. destruct Hin as [<- | [<- | [<- | [<- | []]]]]; reflexivity.
  - intros fs Himg Hadd. rewrite conforms_ref in *.
    unfold has_props in *. rewrite forallb_forall in *.
    intros p Hin. change (props File) with File_decl in Hin.
    apply File_decl_members in Hin. rewrite has_prop_get.
    destruct Hin as [-> | [Hin | [Hin Hne]]].
    + simpl pname. rewrite get_obj_set_same. reflexivity.
    + rewrite get_obj_set_other.
      * rewrite <- has_prop_get. auto.
      * simpl in Hin.
        destruct Hin as [<- | [<- | [<- | [<- | []]]]]; discriminate.
    + rewrite get_obj_set_other by exact Hne.
      rewrite <- has_prop_get. auto.
Qed.

Lemma C9_file_extends_image_witness :
  conforms (file_node [("size", VStr "upright=0.6")]) (TRef File) = true.
Proof.
  destruct C9_file_extends_image as (_ & _ & _ & _ & Habsent & Hretag).
  apply (Hretag (image_fields [("size", VStr "upright=0.6")])).
  - reflexivity.
  - apply Habsent. intros p Hin. simpl in Hin.
    destruct Hin as [<- | [<- | [<- | [<- | []]]]]; reflexivity.
Defined.

(** ** Definitions *)

Lemma conforms_nullable_string_inv (x : value) :
  conforms x (nullable TString) = true ->
  (exists s, x = VStr s) \/ x = VNull \/ x = VUndefined.
Proof.
  destruct x; cbn; try discriminate; eauto.
Qed.

Lemma conforms_string_inv (x : value) :
  conforms x TString = true -> exists s, x = VStr s.
Proof. destruct x; cbn; try discriminate; eauto. Qed.

(** C8 as stated, that a definition node is childless, fails: a definition
    that carries a children sequence conforms. *)
Lemma C8_counterexample :
  conforms definition_with_children (TRef Definition_) = true /\
  children definition_with_children = [text_node "a"].
Proof. split; reflexivity. Qed.

(** C8, amended: both kinds are registered as definition content.
    [Definition] declares its tag and the properties of the Association
    and Resource bundles, and no [children]: a node that conforms to it
    has a string identifier and url, and a label and title that are
    strings, [null] or [undefined] when present; it needs no children, and
    a [children] property, whatever it holds, does not change whether a
    node conforms.  [FootnoteDefinition] declares a required [children]
    sequence, every member of which is block content or definition
    content, and a node without one does not conform to it. *)
Theorem C8_definition_shapes :
  registered DefinitionContentMap Definition_ = true /\
  registered DefinitionContentMap FootnoteDefinition = true /\
  Definition_decl
  = req "type" (TStrLit "definition") :: Association_decl ++ Resource_decl /\
  map (fun p => (pname p, optional p)) Definition_decl
  = [("type", false); ("identifier", false); ("label", true);
     ("url", false); ("title", true)] /\
  declares Definition_decl "children" = false /\
  (forall d, conforms d (TRef Definition_) = true ->
     (exists s, field "identifier" d = Some (VStr s))
     /\ (exists s, field "url" d = Some (VStr s))
     /\ (forall x, field "label" d = Some x ->
           (exists s, x = VStr s) \/ x = VNull \/ x = VUndefined)
     /\ (forall x, field "title" d = Some x ->
           (exists s, x = VStr s) \/ x = VNull \/ x = VUndefined)) /\
  (conforms (definition_node "a" "https://example.org") (TRef Definition_)
   = true
   /\ field "children" (definition_node "a" "https://example.org") = None) /\
  (forall fs x,
     conforms (VObj (("children", x) :: fs)) (TRef Definition_)
     = conforms (VObj fs) (TRef Definition_)) /\
  decl_of "children" FootnoteDefinition_decl
  = Some (req "children" (TArray (TUnion [BlockContent; DefinitionContent]))) /\
  (forall f, conforms f (TRef FootnoteDefinition) = true ->
     forall c, In c (children f) ->
       conforms c BlockContent = true \/ conforms c DefinitionContent = true) /\
  (forall fs, get "children" fs = None ->
     conforms (VObj fs) (TRef FootnoteDefinition) = false).
Proof.
  split; [|split; [|split; [|split; [|split; [|split; [|split; [|split;
    [|split; [|split]]]]]]]]]; try reflexivity.
  - intros d Hd. destruct (conforms_ref_inv _ _ Hd) as (fs & -> & Hps).
    simpl field. repeat split.
    + destruct (has_props_required conforms _ fs "identifier" TString Hps)
        as (x & Hget & Hx); [simpl; tauto|].
      destruct (conforms_string_inv _ Hx) as (s & ->). eauto.
    + destruct (has_props_required conforms _ fs "url" TString Hps)
        as (x & Hget & Hx); [simpl; tauto|].
      destruct (conforms_string_inv _ Hx) as (s & ->). eauto.
    + intros x Hget.
      destruct (has_props_optional conforms _ fs "label" (nullable TString)
                  x Hps) as [-> | Hx]; [simpl; tauto | exact Hget | auto |].
      now apply conforms_nullable_string_inv.
    + intros x Hget.
      destruct (has_props_optional conforms _ fs "title" (nullable TString)
                  x Hps) as [-> | Hx]; [simpl; tauto | exact Hget | auto |].
      now apply conforms_nullable_string_inv.
  - split; reflexivity.
  - intros f Hf c Hc.
    pose proof (conforms_children f FootnoteDefinition
                  (TUnion [BlockContent; DefinitionContent])) as H.
    specialize (H ltac:(simpl; auto) Hf c Hc).
    rewrite conforms_union in H. simpl in H. rewrite orb_false_r in H.
    now apply orb_true_iff in H.
  - intros fs Hget. rewrite conforms_ref.
    destruct (has_props conforms (props FootnoteDefinition) fs) eqn:E;
      [|reflexivity].
    destruct (has_props_required conforms _ fs "children"
                (TArray (TUnion [BlockContent; DefinitionContent])) E)
      as (x & Hx & _); [simpl; auto | congruence].
Qed.

Lemma C8_definition_shapes_witness :
  ((exists s,
      field "identifier" (definition_node "a" "https://example.org")
      = Some (VStr s))
   /\ (exists s,
         field "url" (definition_node "a" "https://example.org")
         = Some (VStr s))) /\
  (conforms (paragraph_node [text_node "a"]) BlockContent = true
   \/ conforms (paragraph_node [text_node "a"]) DefinitionContent = true) /\
  conforms (VObj [("type", VStr "footnoteDefinition");
                  ("identifier", VStr "a")]) (TRef FootnoteDefinition)
  = false.
Proof.
  destruct C8_definition_shapes
    as (_ & _ & _ & _ & _ & Hdef & _ & _ & _ & Hkids & Hnone).
  split; [|split].
  - destruct (Hdef (definition_node "a" "https://example.org") eq_refl)
      as (Hid & Hurl & _).
    split; assumption.
  - apply (Hkids (footnoteDefinition_node "a" [paragraph_node [text_node "a"]]));
      [reflexivity | simpl; auto].
  - apply Hnone. reflexivity.
Defined.

(** ** Nodes held by attributes *)

(** C10 as stated, that every redirect node has no children, fails: a
    redirect that carries a children sequence conforms. *)
Lemma C10_counterexample :
  conforms redirect_with_children (TRef Redirect) = true /\
  children redirect_with_children = [text_node "a"].
Proof. split; reflexivity. Qed.

(** C10, amended: [Redirect] declares no [children] and a required [value]
    of type [Link], so every conforming redirect holds a conforming link
    node in its [value]; it needs no children, and a [children] property,
    whatever it holds, does not change whether a node conforms.  [Image]
    declares no [children] either, an optional [link] of type [Link] and
    an optional [caption] of phrasing content, and an image holding a link
    node and a text node there conforms.  Nodes are thus held outside any
    children sequence. *)
Theorem C10_nodes_in_attributes :
  decl_of "value" Redirect_decl = Some (req "value" (TRef Link)) /\
  declares Redirect_decl "children" = false /\
  (forall r, conforms r (TRef Redirect) = true ->
     exists l,
       field "value" r = Some l
       /\ conforms l (TRef Link) = true /\ tag l = Some "link") /\
  decl_of "link" Image_decl = Some (opt "link" (TRef Link)) /\
  decl_of "caption" Image_decl = Some (opt "caption" PhrasingContent) /\
  declares Image_decl "children" = false /\
  (conforms
     (image_node [("link", link_node "https://example.org" []);
                  ("caption", text_node "A caption")]) (TRef Image) = true
   /\ children
        (image_node [("link", link_node "https://example.org" []);
                     ("caption", text_node "A caption")]) = []
   /\ conforms (link_node "https://example.org" []) (TRef Link) = true
   /\ conforms (text_node "A caption") PhrasingContent = true) /\
  (conforms (redirect_node (link_node "United States" [])) (TRef Redirect)
   = true
   /\ children (redirect_node (link_node "United States" [])) = []) /\
  (forall fs x,
     conforms (VObj (("children", x) :: fs)) (TRef Redirect)
     = conforms (VObj fs) (TRef Redirect)) /\
  (forall fs x,
     conforms (VObj fs) (TRef Image) = true ->
     (get "link" fs = Some x ->
      x = VUndefined \/ conforms x (TRef Link) = true)
     /\ (get "caption" fs = Some x ->
         x = VUndefined \/ conforms x PhrasingContent = true)).
Proof.
  split; [|split; [|split; [|split; [|split; [|split; [|split; [|split;
    [|split]]]]]]]]; try reflexivity.
  - intros r Hr. destruct (conforms_ref_inv _ _ Hr) as (fs & -> & Hps).
    destruct (has_props_required conforms _ fs "value" (TRef Link) Hps)
      as (l & Hget & Hl); [simpl; auto|].
    exists l. repeat split; auto.
    apply (conforms_tag l Link); [simpl; auto | exact Hl].
  - repeat split; reflexivity.
  - split; reflexivity.
  - intros fs x Hv. rewrite conforms_ref in Hv. split; intros Hget.
    + apply (has_props_optional conforms (props Image) fs "link"); auto.
      simpl; tauto.
    + apply (has_props_optional conforms (props Image) fs "caption"); auto.
      simpl; tauto.
Qed.

Lemma C10_nodes_in_attributes_witness :
  exists l,
    field "value" (redirect_node (link_node "United States" [])) = Some l
    /\ conforms l (TRef Link) = true /\ tag l = Some "link".
Proof.
  destruct C10_nodes_in_attributes as (_ & _ & Hredirect & _).
  apply (Hredirect (redirect_node (link_node "United States" []))).
  reflexivity.
Defined.

(** * Further properties of the declarations *)

(** ** Lists *)

(** Lists nest through list items only: the list-content map registers
    the listItem kind and no other; every child of a conforming list is a
    conforming listItem, tagged so, and every child of a conforming
    listItem is block content or definition content. *)
Theorem list_nesting :
  (forall i, registered ListContentMap i = true <-> i = ListItem) /\
  (forall l, conforms l (TRef List_) = true ->
     forall c, In c (children l) ->
       conforms c (TRef ListItem) = true /\ tag c = Some "listItem") /\
  (forall li, conforms li (TRef ListItem) = true ->
     forall c, In c (children li) ->
       conforms c BlockContent = true \/ conforms c DefinitionContent = true).
Proof.
  split; [|split].
  - intros i. destruct i; vm_compute; split; congruence.
  - intros l Hl c Hc.
    assert (Hi : conforms c (TRef ListItem) = true).
    { pose proof (conforms_children l List_ ListContent) as H.
      specialize (H ltac:(simpl; tauto) Hl c Hc).
      unfold ListContent in H. rewrite conforms_members in H. simpl in H.
      now rewrite orb_false_r in H. }
    split; [exact Hi|].
    apply (conforms_tag c ListItem); [simpl; auto | exact Hi].
  - intros li Hli c Hc.
    pose proof (conforms_children li ListItem
                  (TUnion [BlockContent; DefinitionContent])) as H.
    specialize (H ltac:(simpl; tauto) Hli c Hc).
    rewrite conforms_union in H. simpl in H. rewrite orb_false_r in H.
    now apply orb_true_iff in H.
Qed.

Lemma list_nesting_witness :
  (conforms (listItem_node [paragraph_node [text_node "a"]]) (TRef ListItem)
   = true
   /\ tag (listItem_node [paragraph_node [text_node "a"]]) = Some "listItem") /\
  (conforms (paragraph_node [text_node "a"]) BlockContent = true
   \/ conforms (paragraph_node [text_node "a"]) DefinitionContent = true).
Proof.
  destruct list_nesting as (_ & Hlist & Hitem).
  split.
  - apply (Hlist (list_node [listItem_node [paragraph_node [text_node "a"]]]));
      [reflexivity | simpl; auto].
  - apply (Hitem (listItem_node [paragraph_node [text_node "a"]]));
      [reflexivity | simpl; auto].
Defined.

(** ** Parents of phrasing content *)

(** The interfaces whose children are declared as phrasing content are
    paragraph, heading, tableCell, emphasis, strong, delete and footnote,
    and no others; every child of a node conforming to one of them is
    phrasing content. *)
Theorem phrasing_parents :
  (forall i,
     decl_of "children" (props i)
     = Some (req "children" (TArray PhrasingContent))
     <-> In i [Heading; TableCell; Emphasis; Strong; Delete; Footnote;
               Paragraph]) /\
  (forall i v,
     In i [Heading; TableCell; Emphasis; Strong; Delete; Footnote; Paragraph] ->
     conforms v (TRef i) = true ->
     forall c, In c (children v) -> conforms c PhrasingContent = true).
Proof.
  split.
  - intros i. destruct i; vm_compute; split; intros H;
      first [reflexivity | discriminate H | tauto
            | repeat (destruct H as [H | H]; [discriminate H|]);
              contradiction].
  - intros i v Hi Hv c Hc.
    apply (conforms_children v i PhrasingContent); auto.
    simpl in Hi.
    destruct Hi as [<- | [<- | [<- | [<- | [<- | [<- | [<- | []]]]]]]];
      simpl; tauto.
Qed.

Lemma phrasing_parents_witness :
  conforms (link_node "https://example.org" [text_node "a"]) PhrasingContent
  = true.
Proof.
  destruct phrasing_parents as (_ & Hkids).
  apply (Hkids Paragraph
           (paragraph_node [link_node "https://example.org" [text_node "a"]]));
    [simpl; tauto | reflexivity | simpl; auto].
Defined.

(** ** Tags as discriminants *)

Lemma declared_tag_In (i : iface) (s : string) :
  declared_tag i = Some s -> In (req "type" (TStrLit s)) (props i).
Proof.
  destruct i; intros H; try discriminate H;
    injection H as <-; simpl; tauto.
Qed.

(** The literal tags of the interfaces are pairwise different, so a node
    conforms to at most one interface that declares a literal tag, and its
    [type] field tells which. *)
Theorem tagged_interface_unique :
  (forall i j s, declared_tag i = Some s -> declared_tag j = Some s -> i = j) /\
  (forall v i s,
     declared_tag i = Some s -> conforms v (TRef i) = true ->
     tag v = Some s) /\
  (forall v i j s s',
     declared_tag i = Some s -> declared_tag j = Some s' ->
     conforms v (TRef i) = true -> conforms v (TRef j) = true -> i = j).
Proof.
  assert (Hinj : forall i j s,
             declared_tag i = Some s -> declared_tag j = Some s -> i = j).
  { intros i j s Hi Hj.
    destruct i; try discriminate Hi; injection Hi as <-;
      destruct j; try discriminate Hj; reflexivity. }
  assert (Htag : forall v i s,
             declared_tag i = Some s -> conforms v (TRef i) = true ->
             tag v = Some s).
  { intros v i s Hi Hv.
    exact (conforms_tag v i s (declared_tag_In i s Hi) Hv). }
  split; [exact Hinj | split; [exact Htag|]].
  intros v i j s s' Hi Hj Hvi Hvj.
  pose proof (Htag v i s Hi Hvi) as E1.
  pose proof (Htag v j s' Hj Hvj) as E2.
  rewrite E1 in E2. injection E2 as <-.
  exact (Hinj i j s Hi Hj).
Qed.

Lemma tagged_interface_unique_witness :
  tag (heading_node (inject_Z 2) [text_node "a"]) = Some "heading".
Proof.
  destruct tagged_interface_unique as (_ & Htag & _).
  apply (Htag (heading_node (inject_Z 2) [text_node "a"]) Heading);
    reflexivity.
Defined.

(** ** Interfaces and their bases *)

Lemma conforms_unknown (x : value) : conforms x TUnknown = true.
Proof. destruct x; reflexivity. Qed.

Lemma conforms_union_intro (v : value) (alts : list ty) (t : ty) :
  In t alts -> conforms v t = true -> conforms v (TUnion alts) = true.
Proof.
  intros Hin Hv. rewrite conforms_union. apply existsb_exists. eauto.
Qed.

Lemma conforms_members_intro (v : value) (m : list prop) (p : prop) :
  In p m -> conforms v (ptype p) = true -> conforms v (members m) = true.
Proof.
  intros Hin Hv. rewrite conforms_members. apply existsb_exists. eauto.
Qed.

Lemma conforms_members_inv (v : value) (m : list prop) :
  conforms v (members m) = true ->
  exists p, In p m /\ conforms v (ptype p) = true.
Proof. rewrite conforms_members. apply existsb_exists. Qed.

Lemma conforms_array_mono (t t' : ty) (x : value) :
  (forall c, conforms c t = true -> conforms c t' = true) ->
  conforms x (TArray t) = true -> conforms x (TArray t') = true.
Proof.
  intros Hsub Hx. destruct (conforms_array_inv _ _ Hx) as (l & -> & Hl).
  simpl. apply forallb_forall. auto.
Qed.

Lemma conforms_Node (fs : list (string * value)) :
  conforms (VObj fs) (TRef Node)
  = match get "type" fs with
    | Some (VStr _) => true
    | _ => false
    end.
Proof.
  rewrite conforms_ref. unfold has_props. simpl forallb.
  rewrite has_prop_get, andb_true_r. simpl.
  destruct (get "type" fs) as [[]|]; reflexivity.
Qed.

Lemma decl_of_In (k : string) (ps : list prop) (p : prop) :
  decl_of k ps = Some p -> In p ps /\ pname p = k.
Proof.
  unfold decl_of. intros H. apply find_some in H.
  destruct H as (Hin & He). apply String.eqb_eq in He. auto.
Qed.

(** An interface refines a property list when it declares each of its
    properties, no more optional and with a type no wider. *)
Lemma has_props_refine (fs : list (string * value)) (ps qs : list prop) :
  (forall q, In q qs ->
     match decl_of (pname q) ps with
     | Some p =>
         (optional p = true -> optional q = true)
         /\ (forall x, conforms x (ptype p) = true ->
                       conforms x (ptype q) = true)
     | None => False
     end) ->
  has_props conforms ps fs = true -> has_props conforms qs fs = true.
Proof.
  intros Href Hps. unfold has_props. apply forallb_forall. intros q Hq.
  specialize (Href q Hq).
  destruct (decl_of (pname q) ps) as [p|] eqn:E; [|contradiction].
  destruct Href as (Hopt & Hty).
  destruct (decl_of_In _ _ _ E) as (Hin & Hname).
  pose proof (has_props_In _ _ _ _ Hps Hin) as Hp.
  rewrite has_prop_get in *. rewrite Hname in Hp.
  destruct (get (pname q) fs) as [x|].
  - apply orb_true_iff in Hp. apply orb_true_iff.
    destruct Hp as [Hp | Hp]; [left | right; auto].
    apply andb_true_iff in Hp. destruct Hp as (Ho & Hu).
    now rewrite (Hopt Ho), Hu.
  - auto.
Qed.

(** Every interface that declares a [type] conforms to [Node]. *)
Lemma typed_interface_is_node (i : iface) (v : value) :
  declares (props i) "type" = true ->
  conforms v (TRef i) = true -> conforms v (TRef Node) = true.
Proof.
  intros Hd Hv. destruct (conforms_ref_inv _ _ Hv) as (fs & -> & Hps).
  rewrite conforms_ref. revert Hps. apply has_props_refine.
  intros q Hq. simpl in Hq. destruct Hq as [<- | []].
  destruct i; try discriminate Hd; simpl;
    (split; [tauto|]); intros x Hx;
    first [exact Hx | apply conforms_strlit_inv in Hx; now subst].
Qed.

Lemma members_are_nodes (m : list prop) (v : value) :
  In m category_maps ->
  conforms v (members m) = true -> conforms v (TRef Node) = true.
Proof.
  intros Hm Hv. destruct (conforms_members_inv _ _ Hv) as (p & Hin & Hp).
  simpl in Hm.
  repeat (destruct Hm as [<- | Hm];
          [simpl in Hin;
           repeat (destruct Hin as [<- | Hin];
                   [revert Hp; apply typed_interface_is_node; reflexivity|]);
           contradiction|]).
  contradiction.
Qed.

(** ** Content categories *)

Lemma static_is_phrasing (v : value) :
  conforms v StaticPhrasingContent = true ->
  conforms v PhrasingContent = true.
Proof.
  intros Hv. destruct (conforms_members_inv _ _ Hv) as (p & Hin & Hp).
  apply (conforms_members_intro v PhrasingContentMap p); [|exact Hp].
  simpl in Hin. simpl.
  repeat (destruct Hin as [<- | Hin]; [tauto|]). contradiction.
Qed.

Lemma category_is_content (v : value) (t : ty) :
  In t [BlockContent; DefinitionContent; TopLevelContent; ListContent;
        TableContent; RowContent; PhrasingContent; StaticPhrasingContent] ->
  conforms v t = true -> conforms v Content = true.
Proof.
  intros Ht Hv. simpl in Ht.
  destruct Ht as [<- | [<- | [<- | [<- | [<- | [<- | [<- | [<- | []]]]]]]]].
  - apply (conforms_union_intro v _ TopLevelContent); [simpl; tauto|].
    apply (conforms_union_intro v _ BlockContent); [simpl; tauto | exact Hv].
  - apply (conforms_union_intro v _ TopLevelContent); [simpl; tauto|].
    apply (conforms_union_intro v _ DefinitionContent);
      [simpl; tauto | exact Hv].
  - apply (conforms_union_intro v _ TopLevelContent);
      [simpl; tauto | exact Hv].
  - apply (conforms_union_intro v _ ListContent); [simpl; tauto | exact Hv].
  - apply (conforms_union_intro v _ TableContent); [simpl; tauto | exact Hv].
  - apply (conforms_union_intro v _ RowContent); [simpl; tauto | exact Hv].
  - apply (conforms_union_intro v _ PhrasingContent);
      [simpl; tauto | exact Hv].
  - apply (conforms_union_intro v _ PhrasingContent); [simpl; tauto|].
    now apply static_is_phrasing.
Qed.

Lemma content_is_node (v : value) :
  conforms v Content = true -> conforms v (TRef Node) = true.
Proof.
  intros Hv. unfold Content, TopLevelContent in Hv.
  rewrite conforms_union in Hv. simpl in Hv.
  rewrite conforms_union in Hv. simpl in Hv.
  rewrite !orb_false_r, !orb_true_iff in Hv.
  destruct Hv as [[H | H] | [H | [H | [H | H]]]];
    revert H; apply members_are_nodes; simpl; tauto.
Qed.

(** [Content] takes in every content category: a value accepted as block,
    definition, list, table, row, phrasing or static phrasing content is
    accepted as [Content], static phrasing content is phrasing content,
    and whatever [Content] accepts is a node. *)
Theorem content_covers_categories :
  (forall v t,
     In t [BlockContent; DefinitionContent; TopLevelContent; ListContent;
           TableContent; RowContent; PhrasingContent;
           StaticPhrasingContent] ->
     conforms v t = true -> conforms v Content = true) /\
  (forall v, conforms v StaticPhrasingContent = true ->
             conforms v PhrasingContent = true) /\
  (forall v, conforms v Content = true -> conforms v (TRef Node) = true).
Proof.
  split; [exact category_is_content | split].
  - exact static_is_phrasing.
  - exact content_is_node.
Qed.

Lemma content_covers_categories_witness :
  conforms (text_node "a") Content = true /\
  conforms (text_node "a") (TRef Node) = true.
Proof.
  destruct content_covers_categories as (Hin & _ & Hnode).
  assert (H : conforms (text_node "a") Content = true).
  { apply (Hin (text_node "a") StaticPhrasingContent);
      [simpl; tauto | reflexivity]. }
  split; [exact H | exact (Hnode (text_node "a") H)].
Defined.

Lemma node_is_nowiki (v : value) :
  conforms v (TRef Node) = true -> conforms v (TRef Nowiki) = true.
Proof. destruct v; intros H; exact H. Qed.

Lemma node_is_block (v : value) :
  conforms v (TRef Node) = true -> conforms v BlockContent = true.
Proof.
  intros H.
  apply (conforms_members_intro v BlockContentMap (req "nowiki" (TRef Nowiki)));
    [simpl; tauto | now apply node_is_nowiki].
Qed.

Lemma image_is_content (v : value) :
  conforms v (TRef Image) = true -> conforms v Content = true.
Proof.
  intros H. apply (category_is_content v BlockContent); [simpl; tauto|].
  apply node_is_block. revert H. now apply typed_interface_is_node.
Qed.

Ltac narrow_elem :=
  let c := fresh "c" in
  let Hc := fresh "Hc" in
  intros c Hc;
  first
    [ exact Hc
    | apply content_is_node; exact Hc
    | apply image_is_content; exact Hc
    | apply (category_is_content c TopLevelContent);
        [simpl; tauto | exact Hc]
    | eapply category_is_content; [|exact Hc]; simpl; tauto ].

Ltac narrow_type :=
  let x := fresh "x" in
  let Hx := fresh "Hx" in
  first
    [ intros x Hx; exact Hx
    | intros x Hx; apply conforms_strlit_inv in Hx; subst x; reflexivity
    | intros x Hx; apply conforms_unknown
    | intros x Hx; destruct x; simpl in Hx; try discriminate Hx; reflexivity
    | intros x; apply conforms_array_mono; narrow_elem ].

Lemma extends_refines (i b : iface) (v : value) :
  In b (bases i) ->
  conforms v (TRef i) = true -> conforms v (TRef b) = true.
Proof.
  intros Hin Hv. destruct (conforms_ref_inv _ _ Hv) as (fs & -> & Hps).
  rewrite conforms_ref. revert Hps. apply has_props_refine.
  intros q Hq.
  destruct i; simpl in Hin;
    repeat (destruct Hin as [<- | Hin];
            [simpl in Hq;
             repeat (destruct Hq as [<- | Hq];
                     [simpl; split;
                      [first [intros _; reflexivity | intros H; exact H]
                      | narrow_type]|]);
             contradiction|]);
    contradiction.
Qed.

(** Every [extends] clause is honoured: a value that conforms to an
    interface conforms to each interface it extends, although the
    extending interface declares some properties again with another type.
    For [Alternative], whose properties are all optional, this is stated
    of the values that carry an [alt]: the compiler assigns to such a type
    only what shares a property with it. *)
Theorem extends_sound :
  forall i b v,
    In b (bases i) ->
    (b = Alternative -> exists x, field "alt" v = Some x) ->
    conforms v (TRef i) = true -> conforms v (TRef b) = true.
Proof. intros i b v Hb _. now apply extends_refines. Qed.

Lemma extends_sound_witness :
  conforms (heading_node (inject_Z 2) [text_node "a"]) (TRef Parent) = true /\
  conforms (image_node [("alt", VStr "A cat")]) (TRef Alternative) = true.
Proof.
  split.
  - apply (extends_sound Heading Parent);
      [simpl; tauto | discriminate | reflexivity].
  - apply (extends_sound Image Alternative);
      [simpl; tauto | intros _; eexists; reflexivity | reflexivity].
Defined.

(** ** What the content unions accept *)

Lemma conforms_Node_inv (v : value) :
  conforms v (TRef Node) = true <->
  exists fs s, v = VObj fs /\ get "type" fs = Some (VStr s).
Proof.
  split.
  - intros H. destruct (conforms_ref_inv _ _ H) as (fs & -> & _).
    rewrite conforms_Node in H.
    destruct (get "type" fs) as [[| | | |s| |]|] eqn:E; try discriminate H.
    exists fs, s. split; [reflexivity | exact E].
  - intros (fs & s & -> & Hget). rewrite conforms_Node, Hget. reflexivity.
Qed.

Lemma node_is_static (v : value) :
  conforms v (TRef Node) = true -> conforms v StaticPhrasingContent = true.
Proof.
  intros H.
  apply (conforms_members_intro v StaticPhrasingContentMap
           (req "nowiki" (TRef Nowiki)));
    [simpl; tauto | now apply node_is_nowiki].
Qed.

(** Since [Nowiki] adds nothing to [Node], the unions that register it
    accept exactly what [Node] accepts: block content, top-level content,
    static phrasing content, phrasing content and [Content] all accept a
    value when and only when it conforms to [Node], which takes an object
    with a string [type].  The categories that do not register it stay
    discriminated: list, table and row content accept exactly the list
    items, table rows and table cells, and definition content the
    definitions and footnote definitions. *)
Theorem nowiki_opens_the_unions :
  (forall v, conforms v (TRef Nowiki) = conforms v (TRef Node)) /\
  (forall v t,
     In t [BlockContent; TopLevelContent; StaticPhrasingContent;
           PhrasingContent; Content] ->
     conforms v t = conforms v (TRef Node)) /\
  (forall v t,
     In t [BlockContent; TopLevelContent; StaticPhrasingContent;
           PhrasingContent; Content] ->
     conforms v t = true ->
     exists fs s, v = VObj fs /\ get "type" fs = Some (VStr s)) /\
  (forall v, conforms v ListContent = conforms v (TRef ListItem)) /\
  (forall v, conforms v TableContent = conforms v (TRef TableRow)) /\
  (forall v, conforms v RowContent = conforms v (TRef TableCell)) /\
  (forall v,
     conforms v DefinitionContent
     = conforms v (TRef Definition_) || conforms v (TRef FootnoteDefinition)).
Proof.
  assert (Hiff : forall v t,
             In t [BlockContent; TopLevelContent; StaticPhrasingContent;
                   PhrasingContent; Content] ->
             (conforms v t = true <-> conforms v (TRef Node) = true)).
  { intros v t Ht. split.
    - intros Hv. apply content_is_node.
      simpl in Ht. destruct Ht as [<- | [<- | [<- | [<- | [<- | []]]]]];
        first [exact Hv
              | revert Hv; apply category_is_content; simpl; tauto].
    - intros Hv. simpl in Ht.
      destruct Ht as [<- | [<- | [<- | [<- | [<- | []]]]]].
      + now apply node_is_block.
      + apply (conforms_union_intro v _ BlockContent); [simpl; tauto|].
        now apply node_is_block.
      + now apply node_is_static.
      + apply static_is_phrasing. now apply node_is_static.
      + apply (category_is_content v BlockContent); [simpl; tauto|].
        now apply node_is_block. }
  split; [|split; [|split; [|split; [|split; [|split]]]]].
  - intros v. destruct v; reflexivity.
  - intros v t Ht. apply Bool.eq_true_iff_eq. now apply Hiff.
  - intros v t Ht Hv. apply conforms_Node_inv. now apply (Hiff v t Ht).
  - intros v. unfold ListContent. rewrite conforms_members. simpl.
    apply orb_false_r.
  - intros v. unfold TableContent. rewrite conforms_members. simpl.
    apply orb_false_r.
  - intros v. unfold RowContent. rewrite conforms_members. simpl.
    apply orb_false_r.
  - intros v. unfold DefinitionContent. rewrite conforms_members. simpl.
    now rewrite orb_false_r.
Qed.

Lemma nowiki_opens_the_unions_witness :
  conforms (image_node []) PhrasingContent = conforms (image_node []) (TRef Node)
  /\ exists fs s,
       image_node [] = VObj fs /\ get "type" fs = Some (VStr s).
Proof.
  destruct nowiki_opens_the_unions as (_ & Hsame & Hobj & _).
  split.
  - apply (Hsame (image_node []) PhrasingContent). simpl. tauto.
  - apply (Hobj (image_node []) PhrasingContent); [simpl; tauto | reflexivity].
Defined.

(** ** Kinds that no category registers *)

(** Of the interfaces that declare a literal tag, the category maps leave
    out root, delete, image and file, and register all the others. *)
Theorem unregistered_kinds :
  forall i s,
    declared_tag i = Some s ->
    (registered_somewhere i = false <-> In i [Root; Delete; Image; File]).
Proof.
  intros i s Hs.
  destruct i; try discriminate Hs; vm_compute; split; intros H;
    first [reflexivity | discriminate H | tauto
          | repeat (destruct H as [H | H]; [discriminate H|]); contradiction].
Qed.

Lemma unregistered_kinds_witness :
  registered_somewhere Image = false <-> In Image [Root; Delete; Image; File].
Proof. apply (unregistered_kinds Image "image"). reflexivity. Defined.

(** ** Alternative text *)

(** [Image] declares [alt] again as a plain string, so on image and file
    nodes [alt] may be a string or [undefined] but not [null], which the
    [Alternative] bundle on its own allows; [title], taken over from
    [Resource] unchanged, may still be [null]. *)
Theorem image_alt_not_null :
  (forall i fs x,
     i = Image \/ i = File ->
     conforms (VObj fs) (TRef i) = true ->
     get "alt" fs = Some x ->
     x = VUndefined \/ exists s, x = VStr s) /\
  conforms (VObj [("alt", VNull)]) (TRef Alternative) = true /\
  conforms (image_node [("alt", VNull)]) (TRef Image) = false /\
  conforms (file_node [("alt", VNull)]) (TRef File) = false /\
  conforms (image_node [("alt", VStr "A cat")]) (TRef Image) = true /\
  conforms (image_node [("title", VNull)]) (TRef Image) = true.
Proof.
  split; [|repeat split; reflexivity].
  intros i fs x Hi Hv Hget. rewrite conforms_ref in Hv.
  destruct (has_props_optional conforms (props i) fs "alt" TString x Hv)
    as [Hu | Hx]; [destruct Hi as [-> | ->]; simpl; tauto | exact Hget
                  | now left |].
  right. now apply conforms_string_inv.
Qed.

Lemma image_alt_not_null_witness :
  VStr "A cat" = VUndefined \/ exists s, VStr "A cat" = VStr s.
Proof.
  destruct image_alt_not_null as (Halt & _).
  apply (Halt Image (image_fields [("alt", VStr "A cat")]));
    [now left | reflexivity | reflexivity].
Defined.

(** ** Required properties *)

Lemma missing_required (i : iface) (k : string) (t : ty)
  (fs : list (string * value)) :
  In (req k t) (props i) -> get k fs = None ->
  conforms (VObj fs) (TRef i) = false.
Proof.
  intros Hin Hget. rewrite conforms_ref.
  destruct (has_props conforms (props i) fs) eqn:E; [|reflexivity].
  destruct (has_props_required conforms _ fs k t E Hin) as (x & Hx & _).
  congruence.
Qed.

Lemma conforms_object_inv (x : value) (ps : list prop) :
  conforms x (TObject ps) = true ->
  exists a, x = VObj a /\ has_props conforms ps a = true.
Proof. destruct x; simpl; try discriminate. eauto. Qed.

Lemma conforms_number_inv (x : value) :
  conforms x TNumber = true -> exists q, x = VNum q.
Proof. destruct x; simpl; try discriminate. eauto. Qed.

(** ** Galleries and their attributes *)

Lemma Gallery_attributes_declared :
  In (req "attributes" Gallery_attributes) (props Gallery).
Proof. simpl. right; right; left. reflexivity. Qed.

(** A gallery must carry an [attributes] object, which may be empty.  In
    it [mode], when given, is one of six literals, [showfilename] is
    ["yes"], [perrow] is a number and the five remaining attributes are
    strings. *)
Theorem gallery_attributes :
  (forall fs, get "attributes" fs = None ->
     conforms (VObj fs) (TRef Gallery) = false) /\
  (forall g, conforms g (TRef Gallery) = true ->
     exists a,
       field "attributes" g = Some (VObj a)
       /\ (forall x, get "mode" a = Some x ->
             x = VUndefined
             \/ exists s,
                  x = VStr s
                  /\ In s ["traditional"; "nolines"; "packed";
                           "packed-overlay"; "packed-hover"; "slideshow"])
       /\ (forall x, get "showfilename" a = Some x ->
             x = VUndefined \/ x = VStr "yes")
       /\ (forall x, get "perrow" a = Some x ->
             x = VUndefined \/ exists q, x = VNum q)
       /\ (forall k x,
             In k ["caption"; "widths"; "heights"; "class"; "style"] ->
             get k a = Some x ->
             x = VUndefined \/ exists s, x = VStr s)) /\
  conforms (gallery_node []) (TRef Gallery) = true.
Proof.
  split; [|split; [|reflexivity]].
  - intros fs Hget.
    apply (missing_required Gallery "attributes" Gallery_attributes);
      [exact Gallery_attributes_declared | exact Hget].
  - intros g Hg. destruct (conforms_ref_inv _ _ Hg) as (fs & -> & Hps).
    destruct (has_props_required conforms _ fs "attributes"
                Gallery_attributes Hps Gallery_attributes_declared)
      as (x & Hget & Hx).
    destruct (conforms_object_inv _ _ Hx) as (a & -> & Ha).
    exists a. split; [exact Hget|]. repeat split.
    + intros x Hm.
      destruct (has_props_optional conforms _ a "mode" _ x Ha
                  ltac:(simpl; left; reflexivity) Hm) as [-> | Hc];
        [now left | right; now apply conforms_lits_inv].
    + intros x Hm.
      destruct (has_props_optional conforms _ a "showfilename"
                  (TStrLit "yes") x Ha ltac:(simpl; tauto) Hm) as [-> | Hc];
        [now left | right; now apply conforms_strlit_inv].
    + intros x Hm.
      destruct (has_props_optional conforms _ a "perrow" TNumber x Ha
                  ltac:(simpl; tauto) Hm) as [-> | Hc];
        [now left | right; now apply conforms_number_inv].
    + intros k x Hk Hm.
      destruct (has_props_optional conforms _ a k TString x Ha) as [-> | Hc];
        [ simpl in Hk;
          destruct Hk as [<- | [<- | [<- | [<- | [<- | []]]]]]; simpl; tauto
        | exact Hm | now left | right; now apply conforms_string_inv].
Qed.

Lemma gallery_attributes_witness :
  conforms (VObj [("type", VStr "gallery"); ("children", VArr [])])
    (TRef Gallery) = false.
Proof.
  destruct gallery_attributes as (Hmissing & _).
  apply Hmissing. reflexivity.
Defined.

(** ** References *)

(** A linkReference must carry a string identifier and a reference type
    that is one of shortcut, collapsed and full, and needs no url, which a
    link must carry.  A footnoteReference takes the Association bundle
    only: it must carry an identifier and declares no reference type. *)
Theorem reference_bundle :
  (forall r, conforms r (TRef LinkReference) = true ->
     (exists s, field "identifier" r = Some (VStr s))
     /\ (exists s,
           field "referenceType" r = Some (VStr s)
           /\ In s ["shortcut"; "collapsed"; "full"])) /\
  (forall fs k, In k ["identifier"; "referenceType"; "children"] ->
     get k fs = None -> conforms (VObj fs) (TRef LinkReference) = false) /\
  declares LinkReference_decl "url" = false /\
  (forall fs, get "url" fs = None -> conforms (VObj fs) (TRef Link) = false) /\
  (forall f, conforms f (TRef FootnoteReference) = true ->
     exists s, field "identifier" f = Some (VStr s)) /\
  declares FootnoteReference_decl "referenceType" = false /\
  conforms (footnoteReference_node "1") (TRef FootnoteReference) = true /\
  conforms (linkReference_node "a" "full" []) (TRef LinkReference) = true /\
  conforms (linkReference_node "a" "partial" []) (TRef LinkReference) = false.
Proof.
  split; [|split; [|split; [|split; [|split]]]]; try (repeat split; reflexivity).
  - intros r Hr. destruct (conforms_ref_inv _ _ Hr) as (fs & -> & Hps).
    simpl field. split.
    + destruct (has_props_required conforms _ fs "identifier" TString Hps)
        as (x & Hget & Hx); [simpl; tauto|].
      destruct (conforms_string_inv _ Hx) as (s & ->). eauto.
    + destruct (has_props_required conforms _ fs "referenceType"
                  ReferenceType Hps) as (x & Hget & Hx); [simpl; tauto|].
      destruct (conforms_lits_inv _ _ Hx) as (s & -> & Hs). eauto.
  - intros fs k Hk Hget. simpl in Hk.
    destruct Hk as [<- | [<- | [<- | []]]].
    + apply (missing_required LinkReference "identifier" TString);
        [simpl; tauto | exact Hget].
    + apply (missing_required LinkReference "referenceType" ReferenceType);
        [simpl; tauto | exact Hget].
    + apply (missing_required LinkReference "children"
               (TArray StaticPhrasingContent)); [simpl; tauto | exact Hget].
  - intros fs Hget.
    apply (missing_required Link "url" TString); [simpl; tauto | exact Hget].
  - intros f Hf. destruct (conforms_ref_inv _ _ Hf) as (fs & -> & Hps).
    destruct (has_props_required conforms _ fs "identifier" TString Hps)
      as (x & Hget & Hx); [simpl; tauto|].
    destruct (conforms_string_inv _ Hx) as (s & ->). simpl. eauto.
Qed.

Lemma reference_bundle_witness :
  (exists s, field "identifier" (linkReference_node "a" "full" [])
             = Some (VStr s))
  /\ (exists s,
        field "referenceType" (linkReference_node "a" "full" [])
        = Some (VStr s)
        /\ In s ["shortcut"; "collapsed"; "full"]).
Proof.
  destruct reference_bundle as (Href & _).
  apply (Href (linkReference_node "a" "full" [])). reflexivity.
Defined.

(** ** Literals *)

(** The literal kinds (html, text, math, syntaxHighlighting) hold a string
    in [value].  No interface declares both [children] and [value]; the
    only interface with a [value] that is not a string is [Redirect]. *)
Theorem literal_kinds :
  (forall i v,
     In i [Literal; HTML; Text; Math; SyntaxHighlighting] ->
     conforms v (TRef i) = true ->
     exists s, field "value" v = Some (VStr s)) /\
  (forall i,
     declares (props i) "children" && declares (props i) "value" = false) /\
  (forall i,
     declares (props i) "value" = true <->
     In i [UnistLiteral; Literal; HTML; Text; Redirect; Math;
           SyntaxHighlighting]) /\
  (forall i,
     decl_of "value" (props i) = Some (req "value" TString) <->
     In i [Literal; HTML; Text; Math; SyntaxHighlighting]).
Proof.
  split; [|split; [|split]].
  - intros i v Hi Hv. destruct (conforms_ref_inv _ _ Hv) as (fs & -> & Hps).
    destruct (has_props_required conforms _ fs "value" TString Hps)
      as (x & Hget & Hx).
    { simpl in Hi.
      destruct Hi as [<- | [<- | [<- | [<- | [<- | []]]]]]; simpl; tauto. }
    destruct (conforms_string_inv _ Hx) as (s & ->). simpl. eauto.
  - intros i. destruct i; reflexivity.
  - intros i. destruct i; vm_compute; split; intros H;
      first [reflexivity | discriminate H | tauto
            | repeat (destruct H as [H | H]; [discriminate H|]);
              contradiction].
  - intros i. destruct i; vm_compute; split; intros H;
      first [reflexivity | discriminate H | tauto
            | repeat (destruct H as [H | H]; [discriminate H|]);
              contradiction].
Qed.

Lemma literal_kinds_witness :
  exists s, field "value" (text_node "a") = Some (VStr s).
Proof.
  destruct literal_kinds as (Hvalue & _).
  apply (Hvalue Text (text_node "a")); [simpl; tauto | reflexivity].
Defined.

(** ** Keys of the category maps *)

(** In every category map the keys are pairwise different and each entry
    is a required reference to an interface.  The key is the literal tag
    of that interface, except for [nowiki], which has no literal tag, and
    for the keys [thematicbreak], [footnotereference] and
    [syntaxhighlighting], whose interfaces are tagged [thematicBreak],
    [footnoteReference] and [syntaxHighlighting]. *)
Theorem category_map_keys :
  (forall m, In m category_maps -> NoDup (map pname m)) /\
  (forall m p, In m category_maps -> In p m ->
     exists i,
       p = req (pname p) (TRef i)
       /\ (declared_tag i = Some (pname p)
           \/ (pname p, i) = ("nowiki", Nowiki)
           \/ (pname p, declared_tag i)
              = ("thematicbreak", Some "thematicBreak")
           \/ (pname p, declared_tag i)
              = ("footnotereference", Some "footnoteReference")
           \/ (pname p, declared_tag i)
              = ("syntaxhighlighting", Some "syntaxHighlighting"))).
Proof.
  split.
  - intros m Hm. simpl in Hm.
    repeat (destruct Hm as [<- | Hm];
            [simpl;
             repeat (constructor;
                     [simpl; intros H;
                      repeat (destruct H as [H | H]; [discriminate H|]);
                      exact H|]);
             constructor|]).
    contradiction.
  - intros m p Hm Hp. simpl in Hm.
    repeat (destruct Hm as [<- | Hm];
            [simpl in Hp;
             repeat (destruct Hp as [<- | Hp];
                     [eexists; split; [reflexivity|]; simpl; tauto|]);
             contradiction|]).
    contradiction.
Qed.

Lemma category_map_keys_witness :
  NoDup (map pname PhrasingContentMap).
Proof.
  destruct category_map_keys as (Hkeys & _).
  apply (Hkeys PhrasingContentMap). simpl. tauto.
Defined.

(** ** Strings that the templates accept *)

Module TemplateIntro.

Local Open Scope nat_scope.
Local Open Scope string_scope.

Lemma prefix_intro (p r : string) : prefix p (p ++ r) = true.
Proof.
  induction p as [|c p IH]; simpl; [now destruct r|].
  destruct (ascii_dec c c) as [_ | N]; [exact IH | now elim N].
Qed.

Lemma substring_prefix (a b : string) :
  substring 0 (String.length a) (a ++ b) = a.
Proof.
  induction a as [|c a IH]; simpl; [now destruct b | now rewrite IH].
Qed.

Lemma ends_with_intro (tail r : string) : ends_with tail (r ++ tail) = true.
Proof.
  unfold ends_with, drop. rewrite StringFacts.length_app.
  apply andb_true_iff. split; [apply Nat.leb_le; lia|].
  replace (String.length r + String.length tail - String.length tail)
    with (String.length r + 0) by lia.
  rewrite StringFacts.substring_skip.
  replace (String.length r + String.length tail - (String.length r + 0))
    with (String.length tail) by lia.
  rewrite StringFacts.substring_all. apply String.eqb_refl.
Qed.

Lemma template_match_intro (head : string) (inner : list (hole * string))
  (h : hole) (tail mid : string) :
  match_inner inner h mid = true ->
  template_match head inner h tail (head ++ mid ++ tail) = true.
Proof.
  intros Hm. unfold template_match.
  rewrite !StringFacts.length_app.
  apply andb_true_iff; split;
    [apply andb_true_iff; split; [apply andb_true_iff; split|]|].
  - apply Nat.leb_le. lia.
  - apply prefix_intro.
  - rewrite Attributes.append_assoc. apply ends_with_intro.
  - rewrite <- (Nat.add_0_r (String.length head)) at 1.
    rewrite StringFacts.substring_skip.
    replace (String.length head + (String.length mid + String.length tail)
             - String.length head - String.length tail)
      with (String.length mid) by lia.
    now rewrite substring_prefix.
Qed.

(** The first [x] of [n ++ "x" ++ m] is the one after [n] when [n] holds
    none. *)
Lemma index_x (n m : string) :
  index 0 "x" n = None -> index 0 "x" (n ++ "x" ++ m) = Some (String.length n).
Proof.
  induction n as [|c n IH]; intros H.
  - cbn [append String.length index prefix].
    destruct (ascii_dec "x" "x") as [_ | N]; [|now elim N].
    now destruct m.
  - cbn [append String.length]. cbn [index] in *.
    cbn [prefix] in *.
    destruct (ascii_dec "x" c) as [E | N].
    + destruct n; discriminate H.
    + destruct (index 0 "x" n) as [k|]; [discriminate H|].
      specialize (IH eq_refl). cbn [append] in IH. now rewrite IH.
Qed.

Lemma match_inner_x (n m : string) :
  number_string n = true -> number_string m = true ->
  index 0 "x" n = None ->
  match_inner [(HNumber, "x")] HNumber (n ++ "x" ++ m) = true.
Proof.
  intros Hn Hm Hx. cbn [match_inner]. rewrite (index_x n m Hx).
  rewrite substring_prefix. cbn [hole_ok]. rewrite Hn. cbn [andb].
  unfold drop. rewrite StringFacts.length_app.
  change (String.length "x") with 1.
  change (String.length ("x" ++ m)) with (S (String.length m)).
  replace (String.length n + 1) with (String.length n + 1 + 0) by lia.
  rewrite <- Nat.add_assoc.
  rewrite StringFacts.substring_skip.
  cbn [Nat.add append substring].
  replace (String.length n + S (String.length m) - (String.length n + 1))
    with (String.length m) by lia.
  now rewrite StringFacts.substring_all.
Qed.

End TemplateIntro.

Lemma image_node_size (s : string) :
  conforms (image_node [("size", VStr s)]) (TRef Image)
  = conforms (VStr s) Image_size.
Proof.
  unfold image_node, image_fields. rewrite conforms_ref.
  cbn -[Image_size conforms]. cbn [conforms].
  now rewrite andb_true_r.
Qed.

(** The number test on examples: decimal, radix-prefixed and blank strings
    pass, malformed and overflowing ones do not. *)
Lemma number_string_examples :
  map number_string
    ["0.6"; "-1.5e3"; "5."; ".5"; "0x1F"; "0b101"; "0o17"; " 5"; " ";
     "1.7976931348623157e308"; "1e-400";
     ""; "."; "1e"; "abc"; "1e999"; "Infinity"; "-0x10"; "0x"; "1 2";
     "1.7976931348623159e308"]
  = [true; true; true; true; true; true; true; true; true; true; true;
     false; false; false; false; false; false; false; false; false; false].
Proof. vm_compute. reflexivity. Qed.

Lemma Image_size_more_examples :
  map (fun s => conforms (VStr s) Image_size)
    ["0x1Fpx"; " 5px"; "upright= 1"; "upright=1e999"; "1e999px"]
  = [true; true; true; false; false].
Proof. vm_compute. reflexivity. Qed.

(** The [size] type accepts exactly the strings of its five forms:
    [upright], [upright=] followed by a number, a number followed by
    [px], the same after an [x], and two numbers around an [x] followed by
    [px], where the [x] that separates them is the first of the string.
    An image whose [size] is such a string conforms. *)
Theorem image_size_exact :
  (forall x, conforms x Image_size = true ->
     exists s,
       x = VStr s
       /\ (s = "upright"
           \/ (exists n, number_string n = true /\ s = "upright=" ++ n)
           \/ (exists n, number_string n = true /\ s = n ++ "px")
           \/ (exists n, number_string n = true /\ s = "x" ++ n ++ "px")
           \/ (exists n m,
                 number_string n = true /\ number_string m = true
                 /\ s = n ++ "x" ++ m ++ "px"))%string) /\
  conforms (VStr "upright") Image_size = true /\
  (forall n, number_string n = true ->
     conforms (VStr ("upright=" ++ n)) Image_size = true
     /\ conforms (VStr (n ++ "px")) Image_size = true
     /\ conforms (VStr ("x" ++ n ++ "px")) Image_size = true) /\
  (forall n m,
     number_string n = true -> number_string m = true ->
     index 0 "x" n = None ->
     conforms (VStr (n ++ "x" ++ m ++ "px")) Image_size = true) /\
  (forall s,
     conforms (image_node [("size", VStr s)]) (TRef Image)
     = conforms (VStr s) Image_size).
Proof.
  split; [exact Attributes.Image_size_forms|].
  split; [reflexivity|]. split; [|split; [|exact image_node_size]].
  - intros n Hn. unfold Image_size. rewrite !conforms_union. cbn [existsb].
    repeat split.
    + apply orb_true_iff. right. apply orb_true_iff. left.
      change (template_match "upright=" [] HNumber "" ("upright=" ++ n)
              = true).
      rewrite <- (Attributes.append_empty_r n) at 1.
      apply (TemplateIntro.template_match_intro "upright=" [] HNumber "" n).
      exact Hn.
    + apply orb_true_iff. right. apply orb_true_iff. right.
      apply orb_true_iff. left.
      exact (TemplateIntro.template_match_intro "" [] HNumber "px" n Hn).
    + apply orb_true_iff. right. apply orb_true_iff. right.
      apply orb_true_iff. right. apply orb_true_iff. left.
      exact (TemplateIntro.template_match_intro "x" [] HNumber "px" n Hn).
  - intros n m Hn Hm Hx. unfold Image_size. rewrite conforms_union.
    cbn [existsb].
    apply orb_true_iff. right. apply orb_true_iff. right.
    apply orb_true_iff. right. apply orb_true_iff. right.
    apply orb_true_iff. left.
    change (template_match "" [(HNumber, "x")] HNumber "px"
              (n ++ "x" ++ m ++ "px") = true).
    pose proof (TemplateIntro.template_match_intro "" [(HNumber, "x")]
                  HNumber "px" (n ++ "x" ++ m)
                  (TemplateIntro.match_inner_x n m Hn Hm Hx)) as H.
    cbn [append] in H.
    now rewrite <- !Attributes.append_assoc in H.
Qed.

Lemma image_size_exact_witness :
  conforms (VStr "10x20px") Image_size = true.
Proof.
  destruct image_size_exact as (_ & _ & _ & Htwo & _).
  apply (Htwo "10" "20"); reflexivity.
Defined.

(** The [kind] type accepts exactly its five literals and the strings
    that start with [thumb=] or [thumbnail=], whatever follows. *)
Theorem image_kind_exact :
  forall s,
    conforms (VStr s) Image_kind = true <->
    (In s ["thumb"; "thumbnail"; "frame"; "framed"; "frameless"]
     \/ (exists r, s = "thumb=" ++ r)
     \/ (exists r, s = "thumbnail=" ++ r))%string.
Proof.
  intros s. split.
  - intros H. destruct (Attributes.Image_kind_forms _ H) as (s' & E & Hs).
    injection E as <-. exact Hs.
  - unfold Image_kind. rewrite conforms_union. cbn [existsb].
    intros [Hin | [(r & ->) | (r & ->)]].
    + simpl in Hin.
      destruct Hin as [<- | [<- | [<- | [<- | [<- | []]]]]]; reflexivity.
    + apply orb_true_iff. right. apply orb_true_iff. right.
      apply orb_true_iff. left.
      change (template_match "thumb=" [] HString "" ("thumb=" ++ r)%string
              = true).
      rewrite <- (Attributes.append_empty_r r) at 1.
      now apply (TemplateIntro.template_match_intro "thumb=" [] HString "" r).
    + apply orb_true_iff. right. apply orb_true_iff. right.
      apply orb_true_iff. right. apply orb_true_iff. left.
      change (template_match "thumbnail=" [] HString ""
                ("thumbnail=" ++ r)%string = true).
      rewrite <- (Attributes.append_empty_r r) at 1.
      now apply (TemplateIntro.template_match_intro "thumbnail=" [] HString
                   "" r).
Qed.

(** ** Children of any parent *)

(** Whatever category a parent interface gives its children, every child
    of a node that conforms to it is accepted as [Content] and is a node:
    an object with a string [type].  This holds for the children of a
    gallery too, whose [Image] interface no category registers. *)
Theorem children_are_content :
  forall i v,
    In Parent (bases i) ->
    conforms v (TRef i) = true ->
    forall c, In c (children v) ->
      conforms c Content = true
      /\ exists fs s, c = VObj fs /\ get "type" fs = Some (VStr s).
Proof.
  intros i v Hb Hv c Hc.
  pose proof (extends_refines i Parent v Hb Hv) as Hp.
  assert (Hcc : conforms c Content = true).
  { apply (conforms_children v Parent Content); [simpl; tauto | exact Hp
                                                | exact Hc]. }
  split; [exact Hcc|].
  apply conforms_Node_inv. now apply content_is_node.
Qed.

Lemma children_are_content_witness :
  conforms (image_node []) Content = true
  /\ exists fs s,
       image_node [] = VObj fs /\ get "type" fs = Some (VStr s).
Proof.
  apply (children_are_content Gallery (gallery_node [image_node []]));
    [simpl; tauto | reflexivity | simpl; tauto].
Defined.

(** ** Optional flags and counters *)

Lemma conforms_nullable_boolean_inv (x : value) :
  conforms x (nullable TBoolean) = true ->
  (exists b, x = VBool b) \/ x = VNull \/ x = VUndefined.
Proof. destruct x; cbn; try discriminate; eauto. Qed.

Lemma conforms_nullable_number_inv (x : value) :
  conforms x (nullable TNumber) = true ->
  (exists q, x = VNum q) \/ x = VNull \/ x = VUndefined.
Proof. destruct x; cbn; try discriminate; eauto. Qed.

Lemma conforms_boolean_inv (x : value) :
  conforms x TBoolean = true -> exists b, x = VBool b.
Proof. destruct x; cbn; try discriminate; eauto. Qed.

(** The flags of lists, list items and tables of contents, when given,
    are booleans, [null] or [undefined]; the indent of a paragraph and the
    start of a list are numbers, [null] or [undefined].  The [border] of
    an image or file is a boolean or [undefined], not [null], and a
    signature must carry both of its boolean flags. *)
Theorem optional_flags :
  (forall i k fs x,
     In (i, k) [(ListItem, "checked"); (ListItem, "spread");
                (List_, "ordered"); (List_, "definition"); (List_, "spread");
                (TOC, "forced"); (TOC, "disabled")] ->
     conforms (VObj fs) (TRef i) = true ->
     get k fs = Some x ->
     (exists b, x = VBool b) \/ x = VNull \/ x = VUndefined) /\
  (forall i k fs x,
     In (i, k) [(Paragraph, "indent"); (List_, "start")] ->
     conforms (VObj fs) (TRef i) = true ->
     get k fs = Some x ->
     (exists q, x = VNum q) \/ x = VNull \/ x = VUndefined) /\
  (forall i fs x,
     i = Image \/ i = File ->
     conforms (VObj fs) (TRef i) = true ->
     get "border" fs = Some x ->
     (exists b, x = VBool b) \/ x = VUndefined) /\
  (forall fs,
     conforms (VObj fs) (TRef Signature) = true ->
     (exists b, get "showName" fs = Some (VBool b))
     /\ (exists b, get "showTime" fs = Some (VBool b))).
Proof.
  split; [|split; [|split]].
  - intros i k fs x Hik Hv Hget. rewrite conforms_ref in Hv.
    destruct (has_props_optional conforms (props i) fs k (nullable TBoolean)
                x Hv) as [-> | Hx]; [|exact Hget | tauto |].
    + simpl in Hik.
      repeat (destruct Hik as [E | Hik];
              [injection E as <- <-; simpl; tauto|]).
      contradiction.
    + now apply conforms_nullable_boolean_inv.
  - intros i k fs x Hik Hv Hget. rewrite conforms_ref in Hv.
    destruct (has_props_optional conforms (props i) fs k (nullable TNumber)
                x Hv) as [-> | Hx]; [|exact Hget | tauto |].
    + simpl in Hik.
      repeat (destruct Hik as [E | Hik];
              [injection E as <- <-; simpl; tauto|]).
      contradiction.
    + now apply conforms_nullable_number_inv.
  - intros i fs x Hi Hv Hget. rewrite conforms_ref in Hv.
    destruct (has_props_optional conforms (props i) fs "border" TBoolean
                x Hv) as [-> | Hx]; [|exact Hget | tauto |].
    + destruct Hi as [-> | ->]; simpl; tauto.
    + left. now apply conforms_boolean_inv.
  - intros fs Hv. rewrite conforms_ref in Hv. split.
    + destruct (has_props_required conforms _ fs "showName" TBoolean Hv)
        as (x & Hget & Hx); [simpl; tauto|].
      destruct (conforms_boolean_inv _ Hx) as (b & ->). eauto.
    + destruct (has_props_required conforms _ fs "showTime" TBoolean Hv)
        as (x & Hget & Hx); [simpl; tauto|].
      destruct (conforms_boolean_inv _ Hx) as (b & ->). eauto.
Qed.

Lemma optional_flags_witness :
  (exists b, VNull = VBool b) \/ VNull = VNull \/ VNull = VUndefined.
Proof.
  destruct optional_flags as (Hflag & _).
  apply (Hflag List_ "ordered"
           [("type", VStr "list"); ("ordered", VNull); ("children", VArr [])]);
    [simpl; tauto | reflexivity | reflexivity].
Defined.
